(** * WhatsApp Gateway: the message relay endpoints of [fastapi/app]

    A shallow embedding of [fastapi/app/main.py] (Redis list queue) and
    [fastapi/app/main.old.py] (Redis stream behind the connector), and the
    properties of the relay that follow from the code.

    Handlers are computations in a state-and-exception monad over a
    [World]: the Redis list kept under [QUEUE_KEY], the reachability of
    Redis, and the Baileys connector seen as a function from HTTP requests to
    replies.  JSON documents are values of [Json] (numbers are integers);
    Python [dict] results of the handlers are [JDict] values with the keys
    of the source.  The webhook dispatcher, which lives in the connector and
    not in the Python sources, is modelled from the spec in [Dispatcher]. *)

From Stdlib Require Import ZArith List String Ascii Bool Lia DecimalString.
Import ListNotations.

Open Scope string_scope.
Open Scope Z_scope.

Set Warnings "-register-all".

(** ** JSON values and Python truthiness *)

Inductive Json : Type :=
| JNull
| JBool (b : bool)
| JNum (n : Z)
| JStr (s : string)
| JList (l : list Json)
| JDict (items : list (string * Json)).

(** [bool(v)] of Python on a decoded JSON value. *)
Definition truthy (v : Json) : bool :=
  match v with
  | JNull => false
  | JBool b => b
  | JNum n => negb (n =? 0)
  | JStr s => negb (String.eqb s "")
  | JList l => match l with [] => false | _ => true end
  | JDict kv => match kv with [] => false | _ => true end
  end.

(** [bool(s)] for a [str]. *)
Definition str_truthy (s : string) : bool := negb (String.eqb s "").

(** [bool(r)] for a pipeline result: [None] or a [str]. *)
Definition reply_truthy (r : option string) : bool :=
  match r with
  | None => false
  | Some s => str_truthy s
  end.

Fixpoint assoc (k : string) (items : list (string * Json)) : option Json :=
  match items with
  | [] => None
  | (k', v) :: rest => if String.eqb k k' then Some v else assoc k rest
  end.

(** [str(n)] for an [int]. *)
Definition str_int (n : Z) : string := NilZero.string_of_int (Z.to_int n).

(** ** Exceptions and the handler monad *)

Inductive Exn : Type :=
| HTTPException (status_code : Z) (detail : string)
| RequestValidationError (param : string)
| HTTPStatusError (status_code : Z)
| TransportError (message : string)
| JSONDecodeError (doc : string)
| RedisConnectionError
| ResponseError (message : string)
| AttributeError (attr : string)
| TypeError (what : string)
| DataOverflowError.

(** [str(e)].  The wording of each message is the library's; the handlers
    only paste it into the detail of the exception they raise. *)
Definition str_exn (e : Exn) : string :=
  match e with
  | HTTPException c d => str_int c ++ ": " ++ d
  | RequestValidationError p => "validation error for " ++ p
  | HTTPStatusError c => "status " ++ str_int c
  | TransportError m => m
  | JSONDecodeError d => "Expecting value: " ++ d
  | RedisConnectionError => "Error connecting to " ++ "redis://localhost:6379"
  | ResponseError m => m
  | AttributeError a => "object has no attribute " ++ a
  | TypeError t => t
  | DataOverflowError => "DataOverflowError"
  end.

Inductive Result (A : Type) : Type :=
| Ok (a : A)
| Raise (e : Exn).

Arguments Ok {A} a.
Arguments Raise {A} e.

(** ** The world outside the process *)

Inductive Method : Type := GET | POST | DELETE.

Record Request : Type := mkRequest {
  req_method : Method;
  req_url : string;
  req_json : option Json
}.

(** What one HTTP exchange with the connector gives: no reply at all
    (refused, timed out), or a status code with a body that may or may
    not be JSON. *)
Inductive Reply : Type :=
| NoReply (reason : string)
| HttpReply (status_code : Z) (body : option Json).

(** [queue] is the Redis list under [QUEUE_KEY], index 0 first (the left
    end, where LPUSH adds). *)
Record World : Type := mkWorld {
  redis_up : bool;
  queue : list string;
  baileys : Request -> Reply
}.

Definition set_queue (w : World) (q : list string) : World :=
  {| redis_up := redis_up w; queue := q; baileys := baileys w |}.

Definition M (A : Type) : Type := World -> Result A * World.

Definition ret {A} (a : A) : M A := fun w => (Ok a, w).

Definition raise {A} (e : Exn) : M A := fun w => (Raise e, w).

Definition bind {A B} (m : M A) (k : A -> M B) : M B :=
  fun w =>
    match m w with
    | (Ok a, w') => k a w'
    | (Raise e, w') => (Raise e, w')
    end.

(** [try: m  except Exception as e: h e] *)
Definition try_except {A} (m : M A) (h : Exn -> M A) : M A :=
  fun w =>
    match m w with
    | (Ok a, w') => (Ok a, w')
    | (Raise e, w') => h e w'
    end.

Declare Scope monad_scope.
Delimit Scope monad_scope with monad.
Notation "x <- m ;; k" := (bind m (fun x => k))
  (at level 61, m at next level, right associativity) : monad_scope.
Notation "m ;;; k" := (bind m (fun _ => k))
  (at level 61, right associativity) : monad_scope.
Open Scope monad_scope.

Definition lift_result {A} (r : Result A) : M A := fun w => (r, w).

(** ** Config *)

Definition BAILEYS_URL : string := "http://localhost:3001".
Definition REDIS_URL : string := "redis://localhost:6379".
Definition QUEUE_KEY : string := "whatsapp:messages:incoming".
Definition STREAM_KEY : string := "whatsapp:messages".

(** ** Redis: the list commands the handlers issue

    Only the list under [QUEUE_KEY] is modelled; every other key is absent,
    which Redis treats as an empty list. *)

Module Redis.

Definition list_at (key : string) (w : World) : list string :=
  if String.eqb key QUEUE_KEY then queue w else [].

Definition store_at (key : string) (l : list string) (w : World) : World :=
  if String.eqb key QUEUE_KEY then set_queue w l else w.

(** LPUSH key value: the new element becomes index 0. *)
Definition lpush_list (x : string) (l : list string) : list string := x :: l.

(** RPOP key: removes and returns the last element, nil on an empty list. *)
Definition rpop_list (l : list string) : option string * list string :=
  match rev l with
  | [] => (None, l)
  | x :: _ => (Some x, removelast l)
  end.

(** The offsets of a command are parsed as signed 64-bit integers. *)
Definition int64 (z : Z) : bool := (- 2 ^ 63 <=? z) && (z <? 2 ^ 63).

(** LRANGE key start stop, once both offsets have parsed: both ends
    inclusive, negative offsets count from the end, out-of-range offsets
    are clamped (t_list.c). *)
Definition lrange_list (l : list string) (start stop : Z) : list string :=
  let llen := Z.of_nat (List.length l) in
  let start := if start <? 0 then llen + start else start in
  let stop := if stop <? 0 then llen + stop else stop in
  let start := if start <? 0 then 0 else start in
  if (start >? stop) || (start >=? llen) then []
  else
    let stop := if stop >=? llen then llen - 1 else stop in
    firstn (Z.to_nat (stop - start + 1)) (skipn (Z.to_nat start) l).

(** The reply to LRANGE: the offsets are parsed before the key is looked
    up, and an offset that is no signed 64-bit integer is answered with an
    error, which the client raises as [ResponseError]. *)
Definition lrange_reply (l : list string) (start stop : Z)
  : Result (list string) :=
  if int64 start && int64 stop then Ok (lrange_list l start stop)
  else Raise (ResponseError "value is not an integer or out of range").

Inductive Command : Type :=
| RPOP (key : string).

Definition run_command (c : Command) (w : World) : option string * World :=
  match c with
  | RPOP key =>
      let (r, l') := rpop_list (list_at key w) in
      (r, store_at key l' w)
  end.

(** MULTI ... EXEC: the queued commands run one after the other with
    nothing in between; one reply per command, in order. *)
Fixpoint run_commands (cs : list Command) (w : World)
  : list (option string) * World :=
  match cs with
  | [] => ([], w)
  | c :: rest =>
      let (r, w1) := run_command c w in
      let (rs, w2) := run_commands rest w1 in
      (r :: rs, w2)
  end.

(** A round trip of the client: the call raises when the server cannot
    be reached, and then nothing ran. *)
Definition round_trip {A} (f : World -> A * World) : M A :=
  fun w =>
    if redis_up w then let (a, w') := f w in (Ok a, w')
    else (Raise RedisConnectionError, w).

Definition ping : M bool := round_trip (fun w => (true, w)).

Definition llen (key : string) : M Z :=
  round_trip (fun w => (Z.of_nat (List.length (list_at key w)), w)).

Definition lrange (key : string) (start stop : Z) : M (list string) :=
  reply <- round_trip (fun w => (lrange_reply (list_at key w) start stop, w)) ;;
  lift_result reply.

(** [redis_client.pipeline()]: commands are buffered on the client and
    sent by [execute]. *)
Definition Pipeline : Type := list Command.

Definition pipeline : Pipeline := [].

Definition rpop (p : Pipeline) (key : string) : Pipeline :=
  (p ++ [RPOP key])%list.

Definition execute (p : Pipeline) : M (list (option string)) :=
  round_trip (run_commands p).

End Redis.

(** ** httpx: one request to the connector *)

Record Response : Type := mkResponse {
  resp_status_code : Z;
  resp_body : option Json
}.

Definition is_success (c : Z) : bool := (200 <=? c) && (c <? 300).

Definition http_send (req : Request) : M Response :=
  fun w =>
    match baileys w req with
    | NoReply reason => (Raise (TransportError reason), w)
    | HttpReply c b => (Ok (mkResponse c b), w)
    end.

Definition raise_for_status (r : Response) : M unit :=
  if is_success (resp_status_code r) then ret tt
  else raise (HTTPStatusError (resp_status_code r)).

Definition response_json (r : Response) : M Json :=
  match resp_body r with
  | Some v => ret v
  | None => raise (JSONDecodeError "")
  end.

(** ** Helpers *)

Definition baileys_post (path : string) (data : Json) : M Json :=
  r <- http_send (mkRequest POST (BAILEYS_URL ++ path) (Some data)) ;;
  raise_for_status r ;;;
  response_json r.

Definition baileys_get (path : string) : M Json :=
  r <- http_send (mkRequest GET (BAILEYS_URL ++ path) None) ;;
  raise_for_status r ;;;
  response_json r.

(** [r.get(key)] and [r[key]] on a decoded document. *)
Definition dict_get (r : Json) (key : string) : M Json :=
  match r with
  | JDict items =>
      ret (match assoc key items with Some v => v | None => JNull end)
  | _ => raise (AttributeError "get")
  end.

Definition dict_get_default (r : Json) (key : string) (d : Json) : M Json :=
  match r with
  | JDict items =>
      ret (match assoc key items with Some v => v | None => d end)
  | _ => raise (AttributeError "get")
  end.

Definition getitem (r : Json) (key : string) : M Json :=
  match r with
  | JDict items =>
      match assoc key items with
      | Some v => ret v
      | None => raise (AttributeError key)
      end
  | _ => raise (AttributeError "__getitem__")
  end.

(** [range(n)] *)
Definition range (n : Z) : list nat := seq 0 (Z.to_nat n).

Definition len {A} (l : list A) : Z := Z.of_nat (List.length l).

(** ** Library functions the handlers call *)

(** [json.loads] and the [qrcode.make] / [img.save] / [base64.b64encode]
    chain are library code; [None] stands for the call raising. *)
Class Libraries : Type := {
  json_loads : string -> option Json;
  qrcode_png_base64 : Json -> option string
}.

Definition loads {libs : Libraries} (s : string) : Result Json :=
  match json_loads s with
  | Some v => Ok v
  | None => Raise (JSONDecodeError s)
  end.

(** [json.loads(r)] on a pipeline reply. *)
Definition loads_reply {libs : Libraries} (r : option string) : Result Json :=
  match r with
  | Some s => loads s
  | None => Raise (TypeError "the JSON object must be str, bytes or bytearray")
  end.

Definition qrcode_make_b64 {libs : Libraries} (data : Json) : M string :=
  match qrcode_png_base64 data with
  | Some s => ret s
  | None => raise DataOverflowError
  end.

(** [[f(x) for x in xs]] with a fallible [f]: left to right, the first
    exception ends the comprehension. *)
Fixpoint comprehension {A B} (f : A -> Result B) (xs : list A)
  : Result (list B) :=
  match xs with
  | [] => Ok []
  | x :: rest =>
      match f x with
      | Raise e => Raise e
      | Ok y =>
          match comprehension f rest with
          | Raise e => Raise e
          | Ok ys => Ok (y :: ys)
          end
      end
  end.

(** ** Request parameters declared with [Query(default, ge=, le=)] *)

Record Query : Type := mkQuery {
  q_default : Z;
  q_ge : option Z;
  q_le : option Z
}.

(** A query-string parameter as it arrives: missing, an integer, or text
    that is no integer. *)
Inductive QueryArg : Type :=
| Absent
| IntArg (z : Z)
| BadArg (raw : string).

Definition within (q : Query) (z : Z) : bool :=
  match q_ge q with Some lo => lo <=? z | None => true end
  && match q_le q with Some hi => z <=? hi | None => true end.

(** The framework validates before the handler body runs; a failure is a
    422 response. *)
Definition validate (name : string) (q : Query) (a : QueryArg) : M Z :=
  match a with
  | Absent => ret (q_default q)
  | IntArg z => if within q z then ret z else raise (RequestValidationError name)
  | BadArg _ => raise (RequestValidationError name)
  end.

(** ** Models (request bodies) *)

Class BaseModel (A : Type) : Type := { model_dump : A -> Json }.

Definition dump_opt (o : option string) : Json :=
  match o with
  | Some s => JStr s
  | None => JNull
  end.

Record TextMsg : Type := mkTextMsg { text_jid : string; text_text : string }.

Record ImageMsg : Type := mkImageMsg {
  image_jid : string;
  image_url : string;
  image_caption : option string
}.

Record ButtonItem : Type := mkButtonItem { item_id : string; item_text : string }.

Record ButtonMsg : Type := mkButtonMsg {
  button_jid : string;
  button_text : string;
  button_footer : option string;
  button_buttons : list ButtonItem
}.

Record ListRow : Type := mkListRow {
  row_id : string;
  row_title : string;
  row_description : option string
}.

Record ListSection : Type := mkListSection {
  section_title : string;
  section_rows : list ListRow
}.

Record ListMsg : Type := mkListMsg {
  list_jid : string;
  list_text : string;
  list_title : option string;
  list_buttonText : string;
  list_footer : option string;
  list_sections : list ListSection
}.

Record TemplateBtn : Type := mkTemplateBtn {
  tbtn_type : string;
  tbtn_text : string;
  tbtn_id : option string;
  tbtn_url : option string;
  tbtn_phone : option string
}.

Record TemplateMsg : Type := mkTemplateMsg {
  template_jid : string;
  template_text : string;
  template_footer : option string;
  template_templateButtons : list TemplateBtn
}.

Record ReactionMsg : Type := mkReactionMsg {
  reaction_jid : string;
  reaction_messageId : string;
  reaction_emoji : string
}.

Record WebhookRegister : Type := mkWebhookRegister {
  webhook_url : string;
  webhook_secret : option string
}.

#[export] Instance TextMsg_model : BaseModel TextMsg :=
  {| model_dump b :=
       JDict [("jid", JStr (text_jid b)); ("text", JStr (text_text b))] |}.

#[export] Instance ImageMsg_model : BaseModel ImageMsg :=
  {| model_dump b :=
       JDict [("jid", JStr (image_jid b)); ("url", JStr (image_url b));
              ("caption", dump_opt (image_caption b))] |}.

#[export] Instance ButtonItem_model : BaseModel ButtonItem :=
  {| model_dump b :=
       JDict [("id", JStr (item_id b)); ("text", JStr (item_text b))] |}.

#[export] Instance ButtonMsg_model : BaseModel ButtonMsg :=
  {| model_dump b :=
       JDict [("jid", JStr (button_jid b)); ("text", JStr (button_text b));
              ("footer", dump_opt (button_footer b));
              ("buttons", JList (map model_dump (button_buttons b)))] |}.

#[export] Instance ListRow_model : BaseModel ListRow :=
  {| model_dump b :=
       JDict [("id", JStr (row_id b)); ("title", JStr (row_title b));
              ("description", dump_opt (row_description b))] |}.

#[export] Instance ListSection_model : BaseModel ListSection :=
  {| model_dump b :=
       JDict [("title", JStr (section_title b));
              ("rows", JList (map model_dump (section_rows b)))] |}.

#[export] Instance ListMsg_model : BaseModel ListMsg :=
  {| model_dump b :=
       JDict [("jid", JStr (list_jid b)); ("text", JStr (list_text b));
              ("title", dump_opt (list_title b));
              ("buttonText", JStr (list_buttonText b));
              ("footer", dump_opt (list_footer b));
              ("sections", JList (map model_dump (list_sections b)))] |}.

#[export] Instance TemplateBtn_model : BaseModel TemplateBtn :=
  {| model_dump b :=
       JDict [("type", JStr (tbtn_type b)); ("text", JStr (tbtn_text b));
              ("id", dump_opt (tbtn_id b)); ("url", dump_opt (tbtn_url b));
              ("phone", dump_opt (tbtn_phone b))] |}.

#[export] Instance TemplateMsg_model : BaseModel TemplateMsg :=
  {| model_dump b :=
       JDict [("jid", JStr (template_jid b)); ("text", JStr (template_text b));
              ("footer", dump_opt (template_footer b));
              ("templateButtons",
               JList (map model_dump (template_templateButtons b)))] |}.

#[export] Instance ReactionMsg_model : BaseModel ReactionMsg :=
  {| model_dump b :=
       JDict [("jid", JStr (reaction_jid b));
              ("messageId", JStr (reaction_messageId b));
              ("emoji", JStr (reaction_emoji b))] |}.

#[export] Instance WebhookRegister_model : BaseModel WebhookRegister :=
  {| model_dump b :=
       JDict [("url", JStr (webhook_url b));
              ("secret", dump_opt (webhook_secret b))] |}.

(** *** Bodies of the interact routes, streamed answers *)

Record ButtonClick : Type := mkButtonClick {
  click_jid : string;
  click_buttonId : string;
  click_displayText : option string
}.

Record ListClick : Type := mkListClick {
  lclick_jid : string;
  lclick_rowId : string;
  lclick_title : option string
}.

#[export] Instance ButtonClick_model : BaseModel ButtonClick :=
  {| model_dump b :=
       JDict [("jid", JStr (click_jid b));
              ("buttonId", JStr (click_buttonId b));
              ("displayText", dump_opt (click_displayText b))] |}.

#[export] Instance ListClick_model : BaseModel ListClick :=
  {| model_dump b :=
       JDict [("jid", JStr (lclick_jid b));
              ("rowId", JStr (lclick_rowId b));
              ("title", dump_opt (lclick_title b))] |}.

(** [buttons: List[ButtonItem] = Field(..., min_length=1, max_length=3)] *)
Definition buttons_field_ok (b : ButtonMsg) : bool :=
  (1 <=? len (button_buttons b)) && (len (button_buttons b) <=? 3).

(** [StreamingResponse(buf, media_type=...)] *)
Inductive Streaming : Type :=
| StreamingResponse (content : string) (media_type : string).

(** [qrcode.make(data)] followed by [img.save(buf, "PNG")]: the bytes of
    the image, [None] when the library raises. *)
Class ImageLibrary : Type := {
  qrcode_png : Json -> option string
}.

Definition qrcode_make_png {img : ImageLibrary} (data : Json) : M string :=
  match qrcode_png data with
  | Some bytes => ret bytes
  | None => raise DataOverflowError
  end.

(** [baileys_delete(path)] of [main.old.py], called with the default
    [data=None]: the branch [c.delete(url)], without a body. *)
Definition baileys_delete (path : string) : M Json :=
  r <- http_send (mkRequest DELETE (BAILEYS_URL ++ path) None) ;;
  raise_for_status r ;;;
  response_json r.

(** ** [fastapi/app/main.py] *)

Module Main.

Section Handlers.

Context {libs : Libraries}.

(** *** Connection *)

Definition status : M Json :=
  try_except (baileys_get "/status")
    (fun e => raise (HTTPException 503 ("Baileys unavailable: " ++ str_exn e))).

Definition get_qrcode : M Json :=
  try_except
    (r <- baileys_get "/qrcode" ;;
     qr <- dict_get r "qr" ;;
     img_b64 <- (if truthy qr
                 then data <- getitem r "qr" ;;
                      b64 <- qrcode_make_b64 data ;;
                      ret (JStr b64)
                 else ret JNull) ;;
     qr' <- dict_get r "qr" ;;
     st <- dict_get r "status" ;;
     ret (JDict [("qr", qr'); ("qr_image_base64", img_b64); ("status", st)]))
    (fun e =>
       match e with
       | HTTPStatusError c =>
           raise (HTTPException c "QR not available – check /status")
       | _ => raise (HTTPException 503 (str_exn e))
       end).

(** *** Send *)

Definition send_text (b : TextMsg) : M Json :=
  baileys_post "/send/text" (model_dump b).

Definition send_image (b : ImageMsg) : M Json :=
  baileys_post "/send/image" (model_dump b).

Definition send_buttons (b : ButtonMsg) : M Json :=
  baileys_post "/send/buttons" (model_dump b).

Definition send_list (b : ListMsg) : M Json :=
  baileys_post "/send/list" (model_dump b).

Definition send_template (b : TemplateMsg) : M Json :=
  baileys_post "/send/template" (model_dump b).

Definition send_reaction (b : ReactionMsg) : M Json :=
  baileys_post "/send/reaction" (model_dump b).

(** *** Messages (Redis queue) *)

Definition queue_status : M Json :=
  n <- Redis.llen QUEUE_KEY ;;
  ret (JDict [("queue_length", JNum n); ("queue_key", JStr QUEUE_KEY)]).

Definition peek (start end_ : Z) : M Json :=
  items <- Redis.lrange QUEUE_KEY start end_ ;;
  msgs <- lift_result (comprehension loads (filter str_truthy items)) ;;
  ret (JDict [("messages", JList msgs); ("count", JNum (len msgs))]).

Definition pop (count : Z) : M Json :=
  let pipeline :=
    fold_left (fun p _ => Redis.rpop p QUEUE_KEY) (range count) Redis.pipeline in
  results <- Redis.execute pipeline ;;
  msgs <- lift_result
            (comprehension loads_reply (filter reply_truthy results)) ;;
  ret (JDict [("messages", JList msgs); ("count", JNum (len msgs))]).

(** *** Health *)

Definition health : M Json :=
  redis_ok <- try_except (Redis.ping ;;; ret true) (fun _ => ret false) ;;
  baileys_ok <- try_except (baileys_get "/status" ;;; ret true)
                  (fun _ => ret false) ;;
  ret (JDict
         [("status", JStr (if redis_ok && baileys_ok then "healthy" else "degraded"));
          ("redis", JStr (if redis_ok then "ok" else "error"));
          ("baileys", JStr (if baileys_ok then "ok" else "error"))]).

(** *** Routes: parameter validation, then the handler *)

Definition peek_start : Query := mkQuery 0 None None.
Definition peek_end : Query := mkQuery 9 None (Some 99).
Definition pop_count : Query := mkQuery 10 (Some 1) (Some 100).

Definition peek_route (start end_ : QueryArg) : M Json :=
  s <- validate "start" peek_start start ;;
  e <- validate "end" peek_end end_ ;;
  peek s e.

Definition pop_route (count : QueryArg) : M Json :=
  c <- validate "count" pop_count count ;;
  pop c.

(** *** Connection: the QR image and logout *)

Definition qrcode_image {img : ImageLibrary} : M Streaming :=
  try_except
    (r <- baileys_get "/qrcode" ;;
     qr <- dict_get r "qr" ;;
     (if negb (truthy qr)
      then raise (HTTPException 404 "QR not available")
      else ret tt) ;;;
     data <- getitem r "qr" ;;
     png <- qrcode_make_png data ;;
     ret (StreamingResponse png "image/png"))
    (fun e => raise (HTTPException 503 (str_exn e))).

(** No [raise_for_status] here: the body is returned whatever the status. *)
Definition logout : M Json :=
  r <- http_send (mkRequest DELETE (BAILEYS_URL ++ "/logout") None) ;;
  response_json r.

(** *** Interact *)

Definition button_click (b : ButtonClick) : M Json :=
  baileys_post "/send/button-click" (model_dump b).

Definition list_click (b : ListClick) : M Json :=
  baileys_post "/send/list-click" (model_dump b).

(** The body of [send_buttons] is validated before the handler runs. *)
Definition send_buttons_route (b : ButtonMsg) : M Json :=
  if buttons_field_ok b then send_buttons b
  else raise (RequestValidationError "buttons").

End Handlers.

End Main.

(** ** [fastapi/app/main.old.py] *)

Module MainOld.

Section Handlers.

Context {libs : Libraries}.

Definition status : M Json :=
  try_except (baileys_get "/status")
    (fun e => raise (HTTPException 503 ("Baileys unavailable: " ++ str_exn e))).

Definition get_qrcode : M Json :=
  try_except
    (r <- baileys_get "/qrcode" ;;
     qr <- dict_get r "qr" ;;
     img_b64 <- (if truthy qr
                 then data <- getitem r "qr" ;;
                      b64 <- qrcode_make_b64 data ;;
                      ret (JStr b64)
                 else ret JNull) ;;
     qr' <- dict_get r "qr" ;;
     st <- dict_get r "status" ;;
     ret (JDict [("qr", qr'); ("qr_image_base64", img_b64); ("status", st)]))
    (fun e =>
       match e with
       | HTTPStatusError _ =>
           raise (HTTPException 404 "QR not available – check /status")
       | _ => raise (HTTPException 503 (str_exn e))
       end).

Definition send_text (b : TextMsg) : M Json :=
  baileys_post "/send/text" (model_dump b).

Definition send_buttons (b : ButtonMsg) : M Json :=
  baileys_post "/send/buttons" (model_dump b).

Definition send_list (b : ListMsg) : M Json :=
  baileys_post "/send/list" (model_dump b).

(** *** Webhooks *)

Definition register_webhook (b : WebhookRegister) : M Json :=
  baileys_post "/webhooks/register" (model_dump b).

(** *** Messages (Redis streams) *)

Definition stream_info : M Json := baileys_get "/messages/stream/info".

Definition stream_read (count : Z) (lastId : string) : M Json :=
  baileys_get ("/messages/stream/read?count=" ++ str_int count
               ++ "&lastId=" ++ lastId).

Definition trace_conversation (jid : string) (limit : Z) : M Json :=
  try_except
    (baileys_get ("/messages/trace/" ++ jid ++ "?limit=" ++ str_int limit))
    (fun e => raise (HTTPException 503 ("Baileys unavailable: " ++ str_exn e))).

Definition queue_status_legacy : M Json :=
  info <- baileys_get "/messages/stream/info" ;;
  n <- dict_get_default info "length" (JNum 0) ;;
  ret (JDict [("queue_length", n)]).

Definition health : M Json :=
  redis_ok <- try_except (Redis.ping ;;; ret true) (fun _ => ret false) ;;
  baileys_ok <- try_except (baileys_get "/status" ;;; ret true)
                  (fun _ => ret false) ;;
  ret (JDict
         [("status", JStr (if redis_ok && baileys_ok then "healthy" else "degraded"));
          ("redis", JStr (if redis_ok then "ok" else "error"));
          ("baileys", JStr (if baileys_ok then "ok" else "error"))]).

(** *** Routes *)

Definition stream_read_count : Query := mkQuery 10 (Some 1) (Some 100).
Definition trace_limit : Query := mkQuery 100 (Some 1) (Some 500).

(** [lastId] is a [str] parameter with default ["0"]. *)
Definition stream_read_route (count : QueryArg) (lastId : option string)
  : M Json :=
  c <- validate "count" stream_read_count count ;;
  stream_read c (match lastId with Some s => s | None => "0" end).

Definition trace_conversation_route (jid : string) (limit : QueryArg)
  : M Json :=
  l <- validate "limit" trace_limit limit ;;
  trace_conversation jid l.

(** *** Connection: the QR image and logout *)

Definition qrcode_image {img : ImageLibrary} : M Streaming :=
  try_except
    (r <- baileys_get "/qrcode" ;;
     qr <- dict_get r "qr" ;;
     (if negb (truthy qr)
      then raise (HTTPException 404 "QR not available")
      else ret tt) ;;;
     data <- getitem r "qr" ;;
     png <- qrcode_make_png data ;;
     ret (StreamingResponse png "image/png"))
    (fun e => raise (HTTPException 503 (str_exn e))).

Definition logout : M Json := baileys_delete "/logout".

(** *** Webhooks *)

Definition list_webhooks : M Json := baileys_get "/webhooks".

(** *** Contacts *)

Definition get_contacts (q : string) (limit : Z) : M Json :=
  baileys_get ("/contacts?q=" ++ q ++ "&limit=" ++ str_int limit).

Definition contacts_count : M Json := baileys_get "/debug/contacts-count".

Definition contacts_limit : Query := mkQuery 200 (Some 1) (Some 1000).

(** [q] is a [str] parameter with default [""]. *)
Definition get_contacts_route (q : option string) (limit : QueryArg) : M Json :=
  l <- validate "limit" contacts_limit limit ;;
  get_contacts (match q with Some s => s | None => EmptyString end) l.

Definition send_buttons_route (b : ButtonMsg) : M Json :=
  if buttons_field_ok b then send_buttons b
  else raise (RequestValidationError "buttons").

End Handlers.

End MainOld.

(** ** The queue in arrival order *)

(** The docstrings of [peek] ("newest first") and [pop] ("oldest first,
    FIFO") fix the orientation of the list: index 0 is the newest entry,
    the right end the oldest. *)
Definition arrival_order (q : list string) : list string := rev q.

(** Modelled from the spec: [append], the producer side of the queue.  The
    producer is the connector, which is not among the Python sources; it
    adds on the left, the end the handlers call newest.  The id that the
    spec's [append] returns has no counterpart in the list queue. *)
Definition append (raw : string) : M unit :=
  Redis.round_trip
    (fun w =>
       (tt, Redis.store_at QUEUE_KEY
              (Redis.lpush_list raw (Redis.list_at QUEUE_KEY w)) w)).

(** A raw entry that the consumer side reads back as an envelope: a
    non-empty string that [json.loads] decodes. *)
Definition decodable {libs : Libraries} (raw : string) : bool :=
  match json_loads raw with Some _ => true | None => false end.

Definition is_envelope {libs : Libraries} (raw : string) : bool :=
  str_truthy raw && decodable raw.

(** The outcome of a handler whose body ends in a comprehension of
    [json.loads]: the answer [dict], or the decoding error. *)
Definition answer (decoded : Result (list Json)) : Result Json :=
  match decoded with
  | Ok msgs => Ok (JDict [("messages", JList msgs); ("count", JNum (len msgs))])
  | Raise e => Raise e
  end.

(** The [dict] that [peek] and [pop] answer with. *)
Definition messages_response (msgs : list Json) : Json :=
  JDict [("messages", JList msgs); ("count", JNum (len msgs))].

(** ** Sequences of queue operations *)

Inductive Op : Type :=
| Append (raw : string)
| Pop (count : Z).

(** Runs the operations in order; the answer of every [Pop] is collected,
    first call first. *)
Fixpoint run_trace {libs : Libraries} (ops : list Op) (w : World)
  : list (Result Json) * World :=
  match ops with
  | [] => ([], w)
  | Append raw :: rest => run_trace rest (snd (append raw w))
  | Pop count :: rest =>
      let (r, w1) := Main.pop_route (IntArg count) w in
      let (rs, w2) := run_trace rest w1 in
      (r :: rs, w2)
  end.

Fixpoint appended (ops : list Op) : list string :=
  match ops with
  | [] => []
  | Append raw :: rest => raw :: appended rest
  | Pop _ :: rest => appended rest
  end.

Definition op_ok {libs : Libraries} (op : Op) : bool :=
  match op with
  | Append raw => is_envelope raw
  | Pop count => (1 <=? count) && (count <=? 100)
  end.

(** [r] is a successful answer that hands out exactly the raw entries
    [taken], decoded, in that order. *)
Definition hands_out {libs : Libraries} (r : Result Json) (taken : list string)
  : Prop :=
  exists msgs,
    r = Ok (messages_response msgs) /\ map Some msgs = map json_loads taken.

(** ** Sample data *)

Module Sample.

Definition dquote : string := String (ascii_of_nat 34) EmptyString.

(** [json.dumps] on the fragment without escapes. *)
Fixpoint dumps (v : Json) : string :=
  match v with
  | JNull => "null"
  | JBool true => "true"
  | JBool false => "false"
  | JNum n => str_int n
  | JStr s => dquote ++ s ++ dquote
  | JList l =>
      "[" ++ (fix items (l : list Json) : string :=
                match l with
                | [] => EmptyString
                | [x] => dumps x
                | x :: rest => dumps x ++ ", " ++ items rest
                end) l ++ "]"
  | JDict kv =>
      "{" ++ (fix members (kv : list (string * Json)) : string :=
                match kv with
                | [] => EmptyString
                | [(k, x)] => dquote ++ k ++ dquote ++ ": " ++ dumps x
                | (k, x) :: rest =>
                    dquote ++ k ++ dquote ++ ": " ++ dumps x ++ ", "
                    ++ members rest
                end) kv ++ "}"
  end.

Definition envelope (id jid text : string) : Json :=
  JDict [("messageId", JStr id); ("jid", JStr jid); ("type", JStr "text");
         ("data", JDict [("text", JStr text)]); ("timestamp", JNum 1700000000)].

Definition e1 : Json := envelope "m1" "972501234567@s.whatsapp.net" "one".
Definition e2 : Json := envelope "m2" "972501234567@s.whatsapp.net" "two".
Definition e3 : Json := envelope "m3" "972507654321@s.whatsapp.net" "three".
Definition e4 : Json := envelope "m4" "972501234567@s.whatsapp.net" "four".
Definition e5 : Json := envelope "m5" "972507654321@s.whatsapp.net" "five".

Definition documents : list Json := [e1; e2; e3; e4; e5; JNull].

(** A decoder for the documents above: the inverse of [dumps] on them,
    and an error on any other text. *)
Definition sample_loads (s : string) : option Json :=
  find (fun d => String.eqb (dumps d) s) documents.

(** A stand-in for the PNG renderer: it refuses text beyond the
    capacity of the largest symbol. *)
Definition sample_png (data : Json) : option string :=
  match data with
  | JStr s =>
      if (Z.of_nat (String.length s) <=? 2331)
      then Some ("iVBORw0KGgo" ++ s) else None
  | _ => Some "iVBORw0KGgo"
  end.

Definition libs : Libraries :=
  {| json_loads := sample_loads; qrcode_png_base64 := sample_png |}.

Definition connector_down : Request -> Reply :=
  fun _ => NoReply "All connection attempts failed".

Definition connector_ready : Request -> Reply :=
  fun req =>
    match req_method req with
    | GET =>
        if String.eqb (req_url req) (BAILEYS_URL ++ "/qrcode")
        then HttpReply 200 (Some (JDict [("qr", JStr "2@abc"); ("status", JStr "qr")]))
        else HttpReply 200 (Some (JDict [("status", JStr "connected"); ("length", JNum 3)]))
    | _ => HttpReply 200 (Some (JDict [("success", JBool true)]))
    end.

(** The connector without a QR code to show answers 404. *)
Definition connector_no_qr : Request -> Reply :=
  fun req =>
    if String.eqb (req_url req) (BAILEYS_URL ++ "/qrcode")
    then HttpReply 404 (Some (JDict [("error", JStr "QR not available")]))
    else HttpReply 200 (Some (JDict [("status", JStr "connected")])).

(** Five envelopes, [e1] the oldest. *)
Definition queue5 : list string :=
  [dumps e5; dumps e4; dumps e3; dumps e2; dumps e1].

Definition world5 : World :=
  {| redis_up := true; queue := queue5; baileys := connector_ready |}.

Definition world0 : World :=
  {| redis_up := true; queue := []; baileys := connector_ready |}.

End Sample.

(** Sample traces over [Sample.world5]. *)
Definition sample_ops : list Op :=
  [Pop 2; Append (Sample.dumps Sample.e1); Pop 100].

Definition sample_counts : list Z := [1; 1; 1; 1; 1].

(** A queue with an empty entry between two envelopes. *)
Definition sample_gappy : World :=
  {| redis_up := true;
     queue := [Sample.dumps Sample.e2; EmptyString; Sample.dumps Sample.e1];
     baileys := Sample.connector_ready |}.

(** ** Probes and failures of the dependencies *)

(** The store probe: does [redis_client.ping()] return? *)
Definition store_probe (w : World) : bool :=
  match Redis.ping w with
  | (Ok _, _) => true
  | (Raise _, _) => false
  end.

(** The connector probe: does [baileys_get("/status")] return? *)
Definition connector_probe (w : World) : bool :=
  match baileys_get "/status" w with
  | (Ok _, _) => true
  | (Raise _, _) => false
  end.

(** The exception, if any, that a reply of the connector turns into inside
    [baileys_get] and [baileys_post]. *)
Definition reply_error (r : Reply) : option Exn :=
  match r with
  | NoReply reason => Some (TransportError reason)
  | HttpReply c body =>
      if is_success c
      then match body with
           | Some _ => None
           | None => Some (JSONDecodeError EmptyString)
           end
      else Some (HTTPStatusError c)
  end.

(** The status line that the framework answers with: an [HTTPException]
    carries its own code, a validation error is 422, any other exception
    that leaves the handler is 500. *)
Definition http_status {A} (r : Result A) : Z :=
  match r with
  | Ok _ => 200
  | Raise (HTTPException c _) => c
  | Raise (RequestValidationError _) => 422
  | Raise _ => 500
  end.

(** What [baileys_get] and [baileys_post] make of a reply. *)
Definition reply_result (r : Reply) : Result Json :=
  match r with
  | NoReply reason => Raise (TransportError reason)
  | HttpReply c body =>
      if is_success c
      then match body with
           | Some v => Ok v
           | None => Raise (JSONDecodeError EmptyString)
           end
      else Raise (HTTPStatusError c)
  end.

Definition get_request (path : string) : Request :=
  mkRequest GET (BAILEYS_URL ++ path) None.

Definition post_request (path : string) (data : Json) : Request :=
  mkRequest POST (BAILEYS_URL ++ path) (Some data).

(** ** The connection-bound operations of [main.py] *)

Inductive SendOp : Type :=
| SendText (b : TextMsg)
| SendImage (b : ImageMsg)
| SendButtons (b : ButtonMsg)
| SendList (b : ListMsg)
| SendTemplate (b : TemplateMsg)
| SendReaction (b : ReactionMsg).

Inductive ConnectionOp : Type :=
| Status
| Qrcode
| Send (op : SendOp).

Definition run_send (op : SendOp) : M Json :=
  match op with
  | SendText b => Main.send_text b
  | SendImage b => Main.send_image b
  | SendButtons b => Main.send_buttons b
  | SendList b => Main.send_list b
  | SendTemplate b => Main.send_template b
  | SendReaction b => Main.send_reaction b
  end.

Definition run_connection_op {libs : Libraries} (op : ConnectionOp) : M Json :=
  match op with
  | Status => Main.status
  | Qrcode => Main.get_qrcode
  | Send op => run_send op
  end.

(** The request that each operation sends to the connector. *)
Definition send_request (op : SendOp) : Request :=
  match op with
  | SendText b => post_request "/send/text" (model_dump b)
  | SendImage b => post_request "/send/image" (model_dump b)
  | SendButtons b => post_request "/send/buttons" (model_dump b)
  | SendList b => post_request "/send/list" (model_dump b)
  | SendTemplate b => post_request "/send/template" (model_dump b)
  | SendReaction b => post_request "/send/reaction" (model_dump b)
  end.

Definition request_of (op : ConnectionOp) : Request :=
  match op with
  | Status => get_request "/status"
  | Qrcode => get_request "/qrcode"
  | Send op => send_request op
  end.

Definition sample_text : TextMsg := mkTextMsg "972501234567" "shalom".

Definition world_down : World :=
  {| redis_up := true; queue := []; baileys := Sample.connector_down |}.

Definition world_no_qr : World :=
  {| redis_up := true; queue := []; baileys := Sample.connector_no_qr |}.

(** The value of [r.get(key)] on the [dict] with these items. *)
Definition lookup_or_null (key : string) (items : list (string * Json)) : Json :=
  match assoc key items with
  | Some v => v
  | None => JNull
  end.

(** ** The webhook dispatcher *)

Module Dispatcher.

(** Modelled from the spec: the Webhook Dispatcher (section 4.3), which
    is missing from the Python sources; [register_webhook] only forwards the
    registration to the connector.  Per subscriber and event the spec gives
    the states Idle, Delivering, Acked, Retrying and Exhausted. *)
Inductive State : Type :=
| Idle
| Delivering (attempt : nat)
| Retrying (failed : nat)
| Acked
| Exhausted.

(** Modelled from the spec: the record of one delivery obligation, the
    state it is in, the intervals waited between attempts and the outcome of
    each attempt, oldest first. *)
Record Delivery : Type := mkDelivery {
  state : State;
  waits : list Z;
  outcomes : list bool
}.

Section Policy.

(** The base interval, the growth factor of the backoff and the cap on
    attempts; [endpoint k] is whether the k-th POST to the subscriber
    succeeds (a timed-out attempt counts as failed). *)
Variables (base factor : Z) (max_attempts : nat) (endpoint : nat -> bool).

(** Modelled from the spec: exponential backoff starting at a fixed base
    interval; the wait after the k-th failure. *)
Definition backoff (failures : nat) : Z :=
  base * factor ^ Z.of_nat (failures - 1).

(** Modelled from the spec: one transition of the state machine
    Idle -> Delivering -> {Acked, Retrying -> Delivering, Exhausted}, with
    the attempt count capped at [max_attempts]. *)
Definition step (d : Delivery) : Delivery :=
  match state d with
  | Idle => mkDelivery (Delivering 1) (waits d) (outcomes d)
  | Delivering k =>
      if endpoint k
      then mkDelivery Acked (waits d) (outcomes d ++ [true])
      else if (k <? max_attempts)%nat
           then mkDelivery (Retrying k) (waits d) (outcomes d ++ [false])
           else mkDelivery Exhausted (waits d) (outcomes d ++ [false])
  | Retrying k =>
      mkDelivery (Delivering (S k)) (waits d ++ [backoff k]) (outcomes d)
  | Acked => d
  | Exhausted => d
  end.

(** Modelled from the spec: the transitions of one delivery, taken one
    after the other. *)
Fixpoint run (fuel : nat) (d : Delivery) : Delivery :=
  match fuel with
  | O => d
  | S fuel' => run fuel' (step d)
  end.

(** Modelled from the spec: the delivery of one event to one subscriber,
    from Idle until the obligation ends. *)
Definition deliver : Delivery :=
  run (2 * max_attempts) (mkDelivery Idle [] []).

(** Modelled from the spec: the store and the dispatcher have independent
    lifecycles; a dispatch runs next to the store and hands it back. *)
Definition dispatch (store : list string) : list string * Delivery :=
  (store, deliver).

End Policy.

Definition successes (d : Delivery) : nat :=
  List.length (filter (fun ok : bool => ok) (outcomes d)).

Fixpoint strictly_increasing (l : list Z) : Prop :=
  match l with
  | x :: rest =>
      match rest with
      | y :: _ => x < y /\ strictly_increasing rest
      | [] => True
      end
  | [] => True
  end.

(** A subscriber that fails twice and then succeeds. *)
Definition third_time_lucky (k : nat) : bool := (3 <=? k)%nat.

Definition never (k : nat) : bool := false.

End Dispatcher.

(** What holds of a delivery in each state: which attempts were made,
    with what outcome, and which intervals were waited. *)
Definition delivery_inv (base factor : Z) (max_attempts : nat)
           (endpoint : nat -> bool) (d : Dispatcher.Delivery) : Prop :=
  Dispatcher.waits d
  = map (Dispatcher.backoff base factor)
      (seq 1 (List.length (Dispatcher.waits d)))
  /\ match Dispatcher.state d with
     | Dispatcher.Idle =>
         Dispatcher.outcomes d = [] /\ Dispatcher.waits d = []
     | Dispatcher.Delivering k =>
         (1 <= k <= max_attempts)%nat
         /\ Dispatcher.outcomes d = repeat false (k - 1)
         /\ List.length (Dispatcher.waits d) = (k - 1)%nat
         /\ (forall j, (1 <= j < k)%nat -> endpoint j = false)
     | Dispatcher.Retrying k =>
         (1 <= k < max_attempts)%nat
         /\ Dispatcher.outcomes d = repeat false k
         /\ List.length (Dispatcher.waits d) = (k - 1)%nat
         /\ (forall j, (1 <= j <= k)%nat -> endpoint j = false)
     | Dispatcher.Acked =>
         exists k,
           (1 <= k <= max_attempts)%nat
           /\ endpoint k = true
           /\ (forall j, (1 <= j < k)%nat -> endpoint j = false)
           /\ Dispatcher.outcomes d = (repeat false (k - 1) ++ [true])%list
           /\ List.length (Dispatcher.waits d) = (k - 1)%nat
     | Dispatcher.Exhausted =>
         (forall j, (1 <= j <= max_attempts)%nat -> endpoint j = false)
         /\ Dispatcher.outcomes d = repeat false max_attempts
         /\ List.length (Dispatcher.waits d) = (max_attempts - 1)%nat
     end.

(** The number of transitions left before a delivery ends. *)
Definition delivery_rank (max_attempts : nat) (d : Dispatcher.Delivery) : nat :=
  match Dispatcher.state d with
  | Dispatcher.Idle => 2 * max_attempts
  | Dispatcher.Delivering k => 2 * (max_attempts - k) + 1
  | Dispatcher.Retrying k => 2 * (max_attempts - k)
  | Dispatcher.Acked => 0
  | Dispatcher.Exhausted => 0
  end.

(** ** More sample data *)

(** A stand-in for the PNG writer. *)
Definition sample_images : ImageLibrary :=
  {| qrcode_png data :=
       match data with
       | JStr s =>
           if (Z.of_nat (String.length s) <=? 2331)
           then Some ("PNG:" ++ s) else None
       | _ => Some "PNG:"
       end |}.

(** A queue whose middle entry is no JSON text. *)
Definition sample_corrupt : World :=
  {| redis_up := true;
     queue := [Sample.dumps Sample.e2; "not json"; Sample.dumps Sample.e1];
     baileys := Sample.connector_ready |}.

(** A connector that answers every request with 500 and a JSON body. *)
Definition connector_500 : Request -> Reply :=
  fun _ => HttpReply 500 (Some (JDict [("error", JStr "boom")])).

Definition world_500 : World :=
  {| redis_up := true; queue := []; baileys := connector_500 |}.

Definition world_redis_down : World :=
  {| redis_up := false; queue := Sample.queue5; baileys := Sample.connector_ready |}.

Definition delete_request (path : string) : Request :=
  mkRequest DELETE (BAILEYS_URL ++ path) None.

Definition four_buttons : ButtonMsg :=
  mkButtonMsg "972501234567" "pick" None
    [mkButtonItem "a" "A"; mkButtonItem "b" "B";
     mkButtonItem "c" "C"; mkButtonItem "d" "D"].

Definition two_buttons : ButtonMsg :=
  mkButtonMsg "972501234567" "pick" None
    [mkButtonItem "y" "yes"; mkButtonItem "n" "no"].

(** ** Handlers that only forward to the connector *)

Inductive Forwarder : Type :=
| FwdButtonClick (b : ButtonClick)
| FwdListClick (b : ListClick)
| FwdRegisterWebhook (b : WebhookRegister)
| FwdListWebhooks
| FwdStreamInfo
| FwdStreamRead (count : Z) (lastId : string)
| FwdGetContacts (q : string) (limit : Z)
| FwdContactsCount.

Definition run_forwarder (f : Forwarder) : M Json :=
  match f with
  | FwdButtonClick b => Main.button_click b
  | FwdListClick b => Main.list_click b
  | FwdRegisterWebhook b => MainOld.register_webhook b
  | FwdListWebhooks => MainOld.list_webhooks
  | FwdStreamInfo => MainOld.stream_info
  | FwdStreamRead count lastId => MainOld.stream_read count lastId
  | FwdGetContacts q limit => MainOld.get_contacts q limit
  | FwdContactsCount => MainOld.contacts_count
  end.

(** The request whose reply decides the answer of each of them. *)
Definition forwarder_request (f : Forwarder) : Request :=
  match f with
  | FwdButtonClick b => post_request "/send/button-click" (model_dump b)
  | FwdListClick b => post_request "/send/list-click" (model_dump b)
  | FwdRegisterWebhook b => post_request "/webhooks/register" (model_dump b)
  | FwdListWebhooks => get_request "/webhooks"
  | FwdStreamInfo => get_request "/messages/stream/info"
  | FwdStreamRead count lastId =>
      get_request ("/messages/stream/read?count=" ++ str_int count
                   ++ "&lastId=" ++ lastId)
  | FwdGetContacts q limit =>
      get_request ("/contacts?q=" ++ q ++ "&limit=" ++ str_int limit)
  | FwdContactsCount => get_request "/debug/contacts-count"
  end.

(** * Properties *)

(** ** Lemmas on the monad and on the Redis list *)

Lemma set_queue_same (w : World) : set_queue w (queue w) = w.
Proof. destruct w; reflexivity. Qed.

Lemma set_queue_twice (w : World) (q1 q2 : list string) :
  set_queue (set_queue w q1) q2 = set_queue w q2.
Proof. reflexivity. Qed.

Lemma list_at_queue (w : World) : Redis.list_at QUEUE_KEY w = queue w.
Proof. reflexivity. Qed.

Lemma store_at_queue (w : World) (l : list string) :
  Redis.store_at QUEUE_KEY l w = set_queue w l.
Proof. reflexivity. Qed.

Lemma rpop_list_rev_nil : Redis.rpop_list (rev []) = (None, []).
Proof. reflexivity. Qed.

Lemma rpop_list_rev_cons (x : string) (h : list string) :
  Redis.rpop_list (rev (x :: h)) = (Some x, rev h).
Proof.
  unfold Redis.rpop_list. rewrite rev_involutive.
  simpl rev. now rewrite removelast_last.
Qed.

Lemma run_command_rpop_nil (w : World) :
  queue w = [] ->
  Redis.run_command (Redis.RPOP QUEUE_KEY) w = (None, w).
Proof.
  intros Hq. unfold Redis.run_command.
  rewrite list_at_queue, Hq.
  change (Redis.rpop_list []) with (Redis.rpop_list (rev [])).
  rewrite rpop_list_rev_nil, store_at_queue, <- Hq. now rewrite set_queue_same.
Qed.

Lemma run_command_rpop_cons (w : World) (x : string) (h : list string) :
  queue w = rev (x :: h) ->
  Redis.run_command (Redis.RPOP QUEUE_KEY) w = (Some x, set_queue w (rev h)).
Proof.
  intros Hq. unfold Redis.run_command.
  rewrite list_at_queue, Hq, rpop_list_rev_cons, store_at_queue. reflexivity.
Qed.

(** [k] RPOPs in a row on a queue whose arrival order is [h]. *)
Lemma run_commands_rpops (k : nat) : forall (w : World) (h : list string),
  queue w = rev h ->
  Redis.run_commands (repeat (Redis.RPOP QUEUE_KEY) k) w
  = ((map Some (firstn k h) ++ repeat None (k - List.length h))%list,
     set_queue w (rev (skipn k h))).
Proof.
  induction k as [|k IH]; intros w h Hq.
  - cbn [repeat Redis.run_commands firstn skipn map]. simpl.
    now rewrite <- Hq, set_queue_same.
  - cbn [repeat Redis.run_commands]. destruct h as [|x h].
    + rewrite (run_command_rpop_nil w Hq).
      rewrite (IH w [] Hq), firstn_nil, skipn_nil, Nat.sub_0_r.
      reflexivity.
    + rewrite (run_command_rpop_cons w x h Hq).
      rewrite (IH (set_queue w (rev h)) h eq_refl).
      simpl. reflexivity.
Qed.

Lemma pipeline_of_rpops (xs : list nat) : forall (p : Redis.Pipeline),
  fold_left (fun p _ => Redis.rpop p QUEUE_KEY) xs p
  = (p ++ repeat (Redis.RPOP QUEUE_KEY) (List.length xs))%list.
Proof.
  induction xs as [|x xs IH]; intros p; simpl.
  - now rewrite app_nil_r.
  - rewrite IH. unfold Redis.rpop. now rewrite <- app_assoc.
Qed.

Lemma pipeline_range (count : Z) :
  fold_left (fun p _ => Redis.rpop p QUEUE_KEY) (range count) Redis.pipeline
  = repeat (Redis.RPOP QUEUE_KEY) (Z.to_nat count).
Proof.
  rewrite pipeline_of_rpops. unfold range, Redis.pipeline.
  now rewrite length_seq.
Qed.

Lemma filter_reply_truthy (xs : list string) (m : nat) :
  filter reply_truthy (map Some xs ++ repeat None m)
  = map Some (filter str_truthy xs).
Proof.
  rewrite filter_app.
  assert (Hnone : filter reply_truthy (repeat None m) = []).
  { induction m; simpl; auto. }
  rewrite Hnone, app_nil_r.
  induction xs as [|x xs IH]; simpl; auto.
  destruct (str_truthy x); simpl; now rewrite IH.
Qed.

Lemma filter_str_truthy_all (xs : list string) :
  forallb str_truthy xs = true -> filter str_truthy xs = xs.
Proof.
  induction xs as [|x xs IH]; simpl; auto.
  intros H. apply andb_prop in H as [Hx Hxs]. rewrite Hx. f_equal. auto.
Qed.

Section Decoding.

Context {libs : Libraries}.

Lemma is_envelope_truthy (xs : list string) :
  forallb is_envelope xs = true -> forallb str_truthy xs = true.
Proof.
  induction xs as [|x xs IH]; simpl; auto.
  intros H. apply andb_prop in H as [Hx Hxs]. unfold is_envelope in Hx.
  apply andb_prop in Hx as [Hx _]. rewrite Hx. simpl. auto.
Qed.

Lemma is_envelope_decodable (xs : list string) :
  forallb is_envelope xs = true -> forallb decodable xs = true.
Proof.
  induction xs as [|x xs IH]; simpl; auto.
  intros H. apply andb_prop in H as [Hx Hxs]. unfold is_envelope in Hx.
  apply andb_prop in Hx as [_ Hx]. rewrite Hx. simpl. auto.
Qed.

(** A comprehension over decodable entries raises nothing and decodes
    each entry, in order. *)
Lemma comprehension_loads_decodable (xs : list string) :
  forallb decodable xs = true ->
  exists msgs,
    comprehension loads xs = Ok msgs
    /\ map Some msgs = map json_loads xs.
Proof.
  induction xs as [|x xs IH]; simpl.
  - intros _. exists []. split; reflexivity.
  - intros H. apply andb_prop in H as [Hx Hxs].
    destruct (IH Hxs) as (msgs & Hc & Hm).
    unfold decodable in Hx.
    unfold loads at 1. destruct (json_loads x) as [v|] eqn:Hv; [|discriminate].
    exists (v :: msgs). rewrite Hc. split; [reflexivity|].
    simpl. now rewrite Hm.
Qed.

Lemma comprehension_loads_envelopes (xs : list string) :
  forallb is_envelope xs = true ->
  exists msgs,
    comprehension loads xs = Ok msgs
    /\ map Some msgs = map json_loads xs.
Proof.
  intros H. apply comprehension_loads_decodable. now apply is_envelope_decodable.
Qed.

Lemma comprehension_loads_reply (xs : list string) :
  comprehension loads_reply (map Some xs) = comprehension loads xs.
Proof.
  induction xs as [|x xs IH]; simpl; auto. now rewrite IH.
Qed.

Lemma forallb_firstn {A} (f : A -> bool) (k : nat) : forall (l : list A),
  forallb f l = true -> forallb f (firstn k l) = true.
Proof.
  induction k as [|k IH]; intros [|x l]; simpl; auto.
  intros H. apply andb_prop in H as [Hx Hl]. rewrite Hx. simpl. auto.
Qed.

Lemma forallb_skipn {A} (f : A -> bool) (k : nat) : forall (l : list A),
  forallb f l = true -> forallb f (skipn k l) = true.
Proof.
  induction k as [|k IH]; intros [|x l]; simpl; auto.
  intros H. apply andb_prop in H as [Hx Hl]. auto.
Qed.

Lemma forallb_rev {A} (f : A -> bool) (l : list A) :
  forallb f l = true -> forallb f (rev l) = true.
Proof.
  rewrite !forallb_forall. intros H x Hx. apply H. now apply in_rev.
Qed.

(** [pop] with Redis reachable: [count] RPOPs, then the decoding of the
    non-empty replies. *)
Lemma pop_eval (w : World) (count : Z) :
  redis_up w = true ->
  Main.pop count w
  = (answer (comprehension loads
               (filter str_truthy
                  (firstn (Z.to_nat count) (arrival_order (queue w))))),
     set_queue w (rev (skipn (Z.to_nat count) (arrival_order (queue w))))).
Proof.
  intros Hup.
  pose (h := arrival_order (queue w)).
  assert (Hq : queue w = rev h) by (unfold h, arrival_order; now rewrite rev_involutive).
  unfold Main.pop. rewrite pipeline_range.
  unfold bind at 1. unfold Redis.execute, Redis.round_trip. rewrite Hup.
  rewrite (run_commands_rpops (Z.to_nat count) w h Hq).
  unfold bind, lift_result.
  rewrite filter_reply_truthy, comprehension_loads_reply. fold h.
  destruct (comprehension loads _); reflexivity.
Qed.

(** [peek] with Redis reachable: one LRANGE, then the decoding of the
    non-empty items; the world is the one before. *)
Lemma peek_eval (w : World) (start end_ : Z) :
  redis_up w = true ->
  Redis.int64 start = true ->
  Redis.int64 end_ = true ->
  Main.peek start end_ w
  = (answer (comprehension loads
               (filter str_truthy (Redis.lrange_list (queue w) start end_))),
     w).
Proof.
  intros Hup Hs He.
  unfold Main.peek, Redis.lrange, bind, Redis.round_trip, Redis.lrange_reply.
  rewrite Hup, list_at_queue, Hs, He. unfold lift_result. cbn [andb].
  destruct (comprehension loads _); reflexivity.
Qed.

(** An offset that Redis cannot parse: the error reply is raised by the
    client and nothing is read. *)
Lemma peek_out_of_range (w : World) (start end_ : Z) :
  redis_up w = true ->
  Redis.int64 start && Redis.int64 end_ = false ->
  Main.peek start end_ w
  = (Raise (ResponseError "value is not an integer or out of range"), w).
Proof.
  intros Hup Hr.
  unfold Main.peek, Redis.lrange, bind, Redis.round_trip, Redis.lrange_reply.
  rewrite Hup, Hr. reflexivity.
Qed.

Lemma int64_iff (z : Z) :
  Redis.int64 z = true
  <-> - 9223372036854775808 <= z < 9223372036854775808.
Proof.
  unfold Redis.int64.
  change (2 ^ 63) with 9223372036854775808.
  rewrite andb_true_iff, Z.leb_le, Z.ltb_lt. tauto.
Qed.

Lemma peek_down (w : World) (start end_ : Z) :
  redis_up w = false ->
  Main.peek start end_ w = (Raise RedisConnectionError, w).
Proof.
  intros Hup. unfold Main.peek, Redis.lrange, bind, Redis.round_trip.
  now rewrite Hup.
Qed.

Lemma pop_down (w : World) (count : Z) :
  redis_up w = false ->
  Main.pop count w = (Raise RedisConnectionError, w).
Proof.
  intros Hup. unfold Main.pop, bind, Redis.execute, Redis.round_trip.
  now rewrite Hup.
Qed.

(** What [pop] does when Redis answers and the queue holds envelopes. *)
Lemma pop_run (w : World) (count : Z) :
  redis_up w = true ->
  forallb is_envelope (queue w) = true ->
  exists msgs,
    Main.pop count w
    = (Ok (messages_response msgs),
       set_queue w (rev (skipn (Z.to_nat count) (arrival_order (queue w)))))
    /\ map Some msgs
       = map json_loads (firstn (Z.to_nat count) (arrival_order (queue w))).
Proof.
  intros Hup Henv.
  assert (Hh : forallb is_envelope
                 (firstn (Z.to_nat count) (arrival_order (queue w))) = true).
  { apply forallb_firstn. unfold arrival_order. now apply forallb_rev. }
  destruct (comprehension_loads_envelopes _ Hh) as (msgs & Hc & Hm).
  exists msgs. split; [|exact Hm].
  rewrite (pop_eval w count Hup).
  rewrite filter_str_truthy_all by (now apply is_envelope_truthy).
  now rewrite Hc.
Qed.

End Decoding.

Lemma firstn_min {A} (n : nat) (l : list A) :
  firstn n l = firstn (Nat.min n (List.length l)) l.
Proof.
  destruct (Nat.le_ge_cases n (List.length l)) as [H|H].
  - now rewrite Nat.min_l.
  - rewrite Nat.min_r by exact H. rewrite firstn_all. now apply firstn_all2.
Qed.

Lemma skipn_min {A} (n : nat) (l : list A) :
  skipn n l = skipn (Nat.min n (List.length l)) l.
Proof.
  destruct (Nat.le_ge_cases n (List.length l)) as [H|H].
  - now rewrite Nat.min_l.
  - rewrite Nat.min_r by exact H. rewrite skipn_all. now apply skipn_all2.
Qed.

Lemma map_Some_length {A B} (f : A -> option B) (ys : list B) (xs : list A) :
  map Some ys = map f xs -> List.length ys = List.length xs.
Proof.
  intros H. apply (f_equal (@List.length _)) in H.
  now rewrite !length_map in H.
Qed.

Lemma validate_within (name : string) (q : Query) (z : Z) :
  within q z = true -> validate name q (IntArg z) = ret z.
Proof. intros H. unfold validate. now rewrite H. Qed.

Lemma validate_outside (name : string) (q : Query) (z : Z) :
  within q z = false ->
  validate name q (IntArg z) = raise (RequestValidationError name).
Proof. intros H. unfold validate. now rewrite H. Qed.

Lemma pop_count_within (n : Z) : within Main.pop_count n = true <-> 1 <= n <= 100.
Proof.
  unfold within, Main.pop_count; simpl.
  rewrite andb_true_iff, !Z.leb_le. tauto.
Qed.

(** ** Properties of [pop] *)

(** C1: on a queue of L envelopes, [pop] with an accepted count n
    (1 <= n <= 100) answers with the min(n, L) oldest envelopes, oldest
    first, and leaves exactly the other L - min(n, L) in the store: the
    queue before is the returned entries followed by the entries that
    remain.  On an empty queue the answer is the empty list, not an
    exception. *)
Theorem pop_returns_oldest_fifo {libs : Libraries} (w : World) (n : Z) :
  redis_up w = true ->
  forallb is_envelope (queue w) = true ->
  1 <= n <= 100 ->
  let L := List.length (queue w) in
  let k := Nat.min (Z.to_nat n) L in
  exists (popped : list string) (msgs : list Json) (w' : World),
    Main.pop_route (IntArg n) w = (Ok (messages_response msgs), w')
    /\ popped = firstn k (arrival_order (queue w))
    /\ map Some msgs = map json_loads popped
    /\ List.length msgs = k
    /\ arrival_order (queue w) = (popped ++ arrival_order (queue w'))%list
    /\ List.length (queue w') = (L - k)%nat
    /\ redis_up w' = redis_up w
    /\ baileys w' = baileys w
    /\ (queue w = [] -> msgs = [] /\ w' = w).
Proof.
  intros Hup Henv Hn L k.
  destruct (pop_run w n Hup Henv) as (msgs & Hrun & Hmsgs).
  set (h := arrival_order (queue w)) in *.
  assert (HL : List.length h = L) by (unfold h, arrival_order; apply length_rev).
  exists (firstn k h), msgs, (set_queue w (rev (skipn (Z.to_nat n) h))).
  assert (Hf : firstn (Z.to_nat n) h = firstn k h).
  { unfold k. rewrite <- HL. apply firstn_min. }
  assert (Hs : skipn (Z.to_nat n) h = skipn k h).
  { unfold k. rewrite <- HL. apply skipn_min. }
  rewrite Hf in Hmsgs.
  assert (Hlen : List.length (firstn k h) = k).
  { rewrite length_firstn, HL. unfold k. lia. }
  repeat split.
  - unfold Main.pop_route.
    rewrite validate_within by (now apply pop_count_within).
    exact Hrun.
  - exact Hmsgs.
  - rewrite (map_Some_length _ _ _ Hmsgs). exact Hlen.
  - simpl queue. unfold arrival_order at 1. rewrite rev_involutive, Hs.
    symmetry. apply firstn_skipn.
  - simpl queue. rewrite length_rev, Hs, length_skipn, HL. reflexivity.
  - destruct msgs as [|m msgs]; [reflexivity|].
    apply map_Some_length in Hmsgs. rewrite Hlen in Hmsgs.
    assert (L = 0%nat) by (unfold L; rewrite H; reflexivity).
    unfold k in Hmsgs. simpl in Hmsgs. lia.
  - assert (Hh : h = []) by (unfold h; rewrite H; reflexivity).
    rewrite Hh, skipn_nil. simpl rev. rewrite <- H. apply set_queue_same.
Qed.

(** The scenario of the spec: [pop(2)] on five envelopes. *)
Example pop_2_of_5 :
  Main.pop_route (libs := Sample.libs) (IntArg 2) Sample.world5
  = (Ok (messages_response [Sample.e1; Sample.e2]),
     set_queue Sample.world5
       [Sample.dumps Sample.e5; Sample.dumps Sample.e4; Sample.dumps Sample.e3]).
Proof. vm_compute. reflexivity. Qed.

Lemma pop_returns_oldest_fifo_witness :
  redis_up Sample.world5 = true
  /\ forallb (is_envelope (libs := Sample.libs)) (queue Sample.world5) = true
  /\ 1 <= 2 <= 100
  /\ exists (popped : list string) (msgs : list Json) (w' : World),
       Main.pop_route (libs := Sample.libs) (IntArg 2) Sample.world5
       = (Ok (messages_response msgs), w')
       /\ popped = firstn 2 (arrival_order (queue Sample.world5))
       /\ map Some msgs = map (json_loads (Libraries := Sample.libs)) popped
       /\ List.length msgs = 2%nat
       /\ arrival_order (queue Sample.world5)
          = (popped ++ arrival_order (queue w'))%list
       /\ List.length (queue w') = 3%nat
       /\ redis_up w' = redis_up Sample.world5
       /\ baileys w' = baileys Sample.world5
       /\ (queue Sample.world5 = [] -> msgs = [] /\ w' = Sample.world5).
Proof.
  split; [reflexivity|]. split; [vm_compute; reflexivity|]. split; [lia|].
  apply (pop_returns_oldest_fifo (libs := Sample.libs) Sample.world5 2);
    [reflexivity | vm_compute; reflexivity | lia].
Defined.

Section PopSteps.

Context {libs : Libraries}.

(** One accepted [pop]: the answer, the world after it, and what the next
    call can rely on. *)
Lemma pop_route_step (w : World) (n : Z) :
  redis_up w = true ->
  forallb is_envelope (queue w) = true ->
  1 <= n <= 100 ->
  let h := arrival_order (queue w) in
  let w1 := set_queue w (rev (skipn (Z.to_nat n) h)) in
  hands_out (fst (Main.pop_route (IntArg n) w)) (firstn (Z.to_nat n) h)
  /\ snd (Main.pop_route (IntArg n) w) = w1
  /\ arrival_order (queue w) = (firstn (Z.to_nat n) h ++ arrival_order (queue w1))%list
  /\ redis_up w1 = true
  /\ forallb is_envelope (queue w1) = true.
Proof.
  intros Hup Henv Hn h w1.
  destruct (pop_run w n Hup Henv) as (msgs & Hrun & Hmsgs).
  assert (Hroute : Main.pop_route (IntArg n) w = (Ok (messages_response msgs), w1)).
  { unfold Main.pop_route.
    rewrite validate_within by (now apply pop_count_within). exact Hrun. }
  rewrite Hroute. simpl fst. simpl snd.
  split; [exists msgs; split; [reflexivity | exact Hmsgs]|].
  split; [reflexivity|].
  split.
  { unfold w1. simpl queue.
    change (arrival_order (rev (skipn (Z.to_nat n) h)))
      with (rev (rev (skipn (Z.to_nat n) h))).
    rewrite rev_involutive, firstn_skipn. reflexivity. }
  split; [exact Hup|].
  unfold w1. simpl queue. apply forallb_rev, forallb_skipn.
  unfold h, arrival_order. now apply forallb_rev.
Qed.

Lemma append_step (w : World) (raw : string) :
  redis_up w = true ->
  snd (append raw w) = set_queue w (raw :: queue w).
Proof.
  intros Hup. unfold append, Redis.round_trip. rewrite Hup.
  reflexivity.
Qed.

(** Whatever the interleaving of appends and pops, the entries handed
    out so far followed by the entries still queued are the entries that
    arrived, in arrival order. *)
Lemma trace_invariant (ops : list Op) : forall (w : World),
  redis_up w = true ->
  forallb is_envelope (queue w) = true ->
  forallb op_ok ops = true ->
  exists taken : list (list string),
    Forall2 hands_out (fst (run_trace ops w)) taken
    /\ (List.concat taken ++ arrival_order (queue (snd (run_trace ops w))))%list
       = (arrival_order (queue w) ++ appended ops)%list.
Proof.
  induction ops as [|op ops IH]; intros w Hup Henv Hops.
  - exists []. simpl. split; [constructor | now rewrite app_nil_r].
  - simpl in Hops. apply andb_prop in Hops as [Hop Hops].
    destruct op as [raw | count].
    + cbn [run_trace appended]. rewrite (append_step w raw Hup).
      destruct (IH (set_queue w (raw :: queue w))) as (taken & HF & Hc).
      * exact Hup.
      * simpl. simpl in Hop. now rewrite Hop, Henv.
      * exact Hops.
      * exists taken. split; [exact HF|].
        rewrite Hc. simpl queue. unfold arrival_order. simpl rev.
        now rewrite <- app_assoc.
    + simpl in Hop. apply andb_prop in Hop as [H1 H2].
      apply Z.leb_le in H1, H2.
      destruct (pop_route_step w count Hup Henv (conj H1 H2))
        as (Hout & Hw1 & Harr & Hup1 & Henv1).
      cbn [run_trace appended].
      destruct (Main.pop_route (IntArg count) w) as [r w1] eqn:Hpop.
      simpl in Hout, Hw1. subst w1.
      destruct (IH _ Hup1 Henv1 Hops) as (taken & HF & Hc).
      destruct (run_trace ops _) as [rs w2] eqn:Hrest.
      cbn [fst snd] in HF, Hc |- *.
      exists (firstn (Z.to_nat count) (arrival_order (queue w)) :: taken).
      split; [constructor; assumption|].
      cbn [List.concat]. rewrite <- app_assoc, Hc, app_assoc.
      f_equal. symmetry. exact Harr.
Qed.

(** Every accepted [pop] on a non-empty queue takes at least one entry,
    so as many pops as there are entries drain the queue. *)
Lemma pops_drain (counts : list Z) : forall (w : World),
  redis_up w = true ->
  forallb is_envelope (queue w) = true ->
  forallb (fun c => (1 <=? c) && (c <=? 100)) counts = true ->
  (List.length (queue (snd (run_trace (map Pop counts) w)))
   <= List.length (queue w) - List.length counts)%nat.
Proof.
  induction counts as [|c counts IH]; intros w Hup Henv Hcs.
  - simpl. lia.
  - simpl in Hcs. apply andb_prop in Hcs as [Hc Hcs].
    apply andb_prop in Hc as [H1 H2]. apply Z.leb_le in H1, H2.
    destruct (pop_route_step w c Hup Henv (conj H1 H2))
      as (_ & Hw1 & _ & Hup1 & Henv1).
    cbn [map run_trace].
    destruct (Main.pop_route (IntArg c) w) as [r w1] eqn:Hpop.
    simpl in Hw1. subst w1.
    specialize (IH _ Hup1 Henv1 Hcs).
    destruct (run_trace (map Pop counts) _) as [rs w2] eqn:Hrest.
    simpl snd in *. simpl queue in IH.
    rewrite length_rev, length_skipn in IH.
    unfold arrival_order in IH. rewrite length_rev in IH.
    simpl List.length. lia.
Qed.

Lemma appended_pops (counts : list Z) : appended (map Pop counts) = [].
Proof. induction counts; simpl; auto. Qed.

Lemma op_ok_pops (counts : list Z) :
  forallb (fun c => (1 <=? c) && (c <=? 100)) counts = true ->
  forallb op_ok (map Pop counts) = true.
Proof.
  induction counts as [|c counts IH]; simpl; auto.
  intros H. apply andb_prop in H as [Hc Hcs]. rewrite Hc. simpl. auto.
Qed.

End PopSteps.

Lemma NoDup_app_disjoint {A} (l1 l2 : list A) :
  NoDup (l1 ++ l2) -> forall a, In a l1 -> ~ In a l2.
Proof.
  induction l1 as [|b l1 IH]; simpl; intros Hnd a Ha Ha2; [contradiction|].
  inversion Hnd as [|? ? Hnotin Hnd']; subst.
  destruct Ha as [->|Ha].
  - apply Hnotin. apply in_or_app. now right.
  - exact (IH Hnd' a Ha Ha2).
Qed.

Lemma disjoint_of_NoDup_decoded {A B} (f : A -> option B)
      (p1 p2 rest : list A) (msgs1 msgs2 : list B) :
  map Some msgs1 = map f p1 ->
  map Some msgs2 = map f p2 ->
  NoDup (map f (p1 ++ p2 ++ rest)) ->
  forall x, In x msgs1 -> ~ In x msgs2.
Proof.
  intros H1 H2 Hnd x Hx1 Hx2.
  rewrite !map_app, <- H1, <- H2 in Hnd.
  apply (NoDup_app_disjoint _ _ Hnd (Some x)).
  - now apply in_map.
  - apply in_or_app. left. now apply in_map.
Qed.

(** C2: two successive accepted pops hand out consecutive, non-overlapping
    stretches of the arrival order, so with pairwise distinct envelopes no
    envelope is in both answers; over any interleaving of appends and pops
    the entries handed out, followed by the entries still queued, are the
    entries that arrived; and as many pops as there are entries hand out
    every one of them and leave the queue empty. *)
Theorem pops_disjoint_none_lost {libs : Libraries}
        (w : World) (n m : Z) (ops : list Op) (counts : list Z) :
  redis_up w = true ->
  forallb is_envelope (queue w) = true ->
  1 <= n <= 100 ->
  1 <= m <= 100 ->
  forallb op_ok ops = true ->
  forallb (fun c => (1 <=? c) && (c <=? 100)) counts = true ->
  (List.length (queue w) <= List.length counts)%nat ->
  (exists (p1 p2 : list string) (msgs1 msgs2 : list Json) (w1 w2 : World),
      Main.pop_route (IntArg n) w = (Ok (messages_response msgs1), w1)
      /\ Main.pop_route (IntArg m) w1 = (Ok (messages_response msgs2), w2)
      /\ map Some msgs1 = map json_loads p1
      /\ map Some msgs2 = map json_loads p2
      /\ arrival_order (queue w) = (p1 ++ p2 ++ arrival_order (queue w2))%list
      /\ (NoDup (map json_loads (queue w)) ->
          forall x, In x msgs1 -> ~ In x msgs2))
  /\ (exists taken : list (list string),
         Forall2 hands_out (fst (run_trace ops w)) taken
         /\ (List.concat taken ++ arrival_order (queue (snd (run_trace ops w))))%list
            = (arrival_order (queue w) ++ appended ops)%list)
  /\ (exists taken : list (list string),
         Forall2 hands_out (fst (run_trace (map Pop counts) w)) taken
         /\ queue (snd (run_trace (map Pop counts) w)) = []
         /\ List.concat taken = arrival_order (queue w)).
Proof.
  intros Hup Henv Hn Hm Hops Hcounts Hlen.
  split; [|split].
  - destruct (pop_route_step w n Hup Henv Hn)
      as ((msgs1 & Hr1 & Hm1) & Hw1 & Harr1 & Hup1 & Henv1).
    set (p1 := firstn (Z.to_nat n) (arrival_order (queue w))) in *.
    set (w1 := set_queue w (rev (skipn (Z.to_nat n) (arrival_order (queue w))))) in *.
    destruct (pop_route_step w1 m Hup1 Henv1 Hm)
      as ((msgs2 & Hr2 & Hm2) & Hw2 & Harr2 & _ & _).
    set (p2 := firstn (Z.to_nat m) (arrival_order (queue w1))) in *.
    set (w2 := set_queue w1 (rev (skipn (Z.to_nat m) (arrival_order (queue w1))))) in *.
    exists p1, p2, msgs1, msgs2, w1, w2.
    assert (Harr : arrival_order (queue w)
                   = (p1 ++ p2 ++ arrival_order (queue w2))%list).
    { rewrite <- Harr2. exact Harr1. }
    repeat split.
    + rewrite (surjective_pairing (Main.pop_route (IntArg n) w)).
      now rewrite Hr1, Hw1.
    + rewrite (surjective_pairing (Main.pop_route (IntArg m) w1)).
      now rewrite Hr2, Hw2.
    + exact Hm1.
    + exact Hm2.
    + exact Harr.
    + intros Hnd.
      apply (disjoint_of_NoDup_decoded json_loads p1 p2
               (arrival_order (queue w2)) msgs1 msgs2 Hm1 Hm2).
      rewrite <- Harr. unfold arrival_order. rewrite map_rev.
      now apply NoDup_rev.
  - exact (trace_invariant ops w Hup Henv Hops).
  - destruct (trace_invariant (map Pop counts) w Hup Henv (op_ok_pops counts Hcounts))
      as (taken & HF & Hc).
    pose proof (pops_drain counts w Hup Henv Hcounts) as Hd.
    assert (Hnil : queue (snd (run_trace (map Pop counts) w)) = []).
    { destruct (queue (snd (run_trace (map Pop counts) w))); [reflexivity|].
      simpl in Hd. lia. }
    exists taken. split; [exact HF|]. split; [exact Hnil|].
    rewrite Hnil, appended_pops in Hc. unfold arrival_order at 1 in Hc.
    simpl in Hc. now rewrite !app_nil_r in Hc.
Qed.

Lemma pops_disjoint_none_lost_witness :
  redis_up Sample.world5 = true
  /\ forallb (is_envelope (libs := Sample.libs)) (queue Sample.world5) = true
  /\ 1 <= 2 <= 100
  /\ 1 <= 3 <= 100
  /\ forallb (op_ok (libs := Sample.libs)) sample_ops = true
  /\ forallb (fun c => (1 <=? c) && (c <=? 100)) sample_counts = true
  /\ (List.length (queue Sample.world5) <= List.length sample_counts)%nat
  /\ (exists (p1 p2 : list string) (msgs1 msgs2 : list Json) (w1 w2 : World),
         Main.pop_route (libs := Sample.libs) (IntArg 2) Sample.world5
         = (Ok (messages_response msgs1), w1)
         /\ Main.pop_route (libs := Sample.libs) (IntArg 3) w1
            = (Ok (messages_response msgs2), w2)
         /\ map Some msgs1 = map (json_loads (Libraries := Sample.libs)) p1
         /\ map Some msgs2 = map (json_loads (Libraries := Sample.libs)) p2
         /\ arrival_order (queue Sample.world5)
            = (p1 ++ p2 ++ arrival_order (queue w2))%list
         /\ (NoDup (map (json_loads (Libraries := Sample.libs))
                      (queue Sample.world5)) ->
             forall x, In x msgs1 -> ~ In x msgs2))
  /\ (exists taken : list (list string),
         Forall2 (hands_out (libs := Sample.libs))
           (fst (run_trace (libs := Sample.libs) sample_ops Sample.world5)) taken
         /\ (List.concat taken
             ++ arrival_order
                  (queue (snd (run_trace (libs := Sample.libs) sample_ops
                                 Sample.world5))))%list
            = (arrival_order (queue Sample.world5) ++ appended sample_ops)%list)
  /\ (exists taken : list (list string),
         Forall2 (hands_out (libs := Sample.libs))
           (fst (run_trace (libs := Sample.libs) (map Pop sample_counts)
                   Sample.world5)) taken
         /\ queue (snd (run_trace (libs := Sample.libs) (map Pop sample_counts)
                          Sample.world5)) = []
         /\ List.concat taken = arrival_order (queue Sample.world5)).
Proof.
  split; [reflexivity|]. split; [vm_compute; reflexivity|].
  split; [lia|]. split; [lia|].
  split; [vm_compute; reflexivity|]. split; [reflexivity|].
  split; [simpl; lia|].
  apply (pops_disjoint_none_lost (libs := Sample.libs)
           Sample.world5 2 3 sample_ops sample_counts);
    [reflexivity | vm_compute; reflexivity | lia | lia
     | vm_compute; reflexivity | reflexivity | simpl; lia].
Defined.

(** Two pops in a row on the five sample envelopes, then a third on the
    empty queue. *)
Example pop_2_then_3_then_empty :
  fst (run_trace (libs := Sample.libs) [Pop 2; Pop 3; Pop 10] Sample.world5)
  = [Ok (messages_response [Sample.e1; Sample.e2]);
     Ok (messages_response [Sample.e3; Sample.e4; Sample.e5]);
     Ok (messages_response [])]
  /\ queue (snd (run_trace (libs := Sample.libs) [Pop 2; Pop 3; Pop 10]
                    Sample.world5)) = [].
Proof. vm_compute. split; reflexivity. Qed.

(** ** Properties of [peek] *)

Lemma lrange_list_nil (start stop : Z) : Redis.lrange_list [] start stop = [].
Proof.
  unfold Redis.lrange_list. cbv zeta. simpl List.length.
  match goal with |- (if ?c then _ else _) = _ => destruct c end;
    [reflexivity|].
  now rewrite skipn_nil, firstn_nil.
Qed.

(** LRANGE answers with one contiguous stretch of the list, in list order. *)
Lemma lrange_list_segment (l : list string) (start stop : Z) :
  exists newer older : list string,
    l = (newer ++ Redis.lrange_list l start stop ++ older)%list.
Proof.
  unfold Redis.lrange_list. cbv zeta.
  match goal with |- context [if ?c then [] else _] => destruct c end.
  - exists [], l. reflexivity.
  - match goal with
    | |- context [firstn ?k (skipn ?a l)] =>
        exists (firstn a l), (skipn k (skipn a l))
    end.
    now rewrite !firstn_skipn.
Qed.

Lemma validate_unbounded (name : string) (d z : Z) :
  validate name (mkQuery d None None) (IntArg z) = ret z.
Proof. reflexivity. Qed.

Lemma peek_end_within (e : Z) : within Main.peek_end e = true <-> e <= 99.
Proof. unfold within, Main.peek_end; simpl. now rewrite Z.leb_le. Qed.

Lemma forallb_app_parts {A} (f : A -> bool) (l1 l2 l3 : list A) :
  forallb f (l1 ++ l2 ++ l3) = true -> forallb f l2 = true.
Proof.
  rewrite !forallb_app, !andb_true_iff. tauto.
Qed.

Section PeekFacts.

Context {libs : Libraries}.

Lemma peek_frame (w : World) (start end_ : Z) :
  snd (Main.peek start end_ w) = w.
Proof.
  destruct (redis_up w) eqn:Hup; [|now rewrite peek_down].
  destruct (Redis.int64 start && Redis.int64 end_) eqn:Hr.
  - apply andb_prop in Hr as [Hs He]. now rewrite peek_eval.
  - now rewrite peek_out_of_range.
Qed.

Lemma peek_route_accepted (w : World) (start end_ : Z) :
  end_ <= 99 ->
  Main.peek_route (IntArg start) (IntArg end_) w = Main.peek start end_ w.
Proof.
  intros He. unfold Main.peek_route.
  unfold Main.peek_start. rewrite validate_unbounded.
  rewrite validate_within by (now apply peek_end_within).
  reflexivity.
Qed.

End PeekFacts.

(** C3: [peek] on an accepted window leaves the world, and with it the
    queue and its length, exactly as it was, whatever the offsets.  With
    offsets that Redis can parse (signed 64-bit): on an empty queue it
    answers with no messages; on a queue of envelopes it answers with one
    contiguous stretch of the list in list order, that is, newest first: in
    arrival order the entries read come reversed.  An offset outside that
    range is answered by Redis with an error, which leaves the handler. *)
Theorem peek_reads_newest_first_without_effect {libs : Libraries}
        (w : World) (start end_ : Z) :
  end_ <= 99 ->
  snd (Main.peek_route (IntArg start) (IntArg end_) w) = w
  /\ (redis_up w = true ->
      Redis.int64 start = true -> Redis.int64 end_ = true ->
      queue w = [] ->
      fst (Main.peek_route (IntArg start) (IntArg end_) w)
      = Ok (messages_response []))
  /\ (redis_up w = true ->
      Redis.int64 start = true -> Redis.int64 end_ = true ->
      forallb is_envelope (queue w) = true ->
      exists (newer window older : list string) (msgs : list Json),
        fst (Main.peek_route (IntArg start) (IntArg end_) w)
        = Ok (messages_response msgs)
        /\ window = Redis.lrange_list (queue w) start end_
        /\ queue w = (newer ++ window ++ older)%list
        /\ map Some msgs = map json_loads window
        /\ arrival_order (queue w)
           = (arrival_order older ++ rev window ++ arrival_order newer)%list)
  /\ (redis_up w = true ->
      Redis.int64 start && Redis.int64 end_ = false ->
      fst (Main.peek_route (IntArg start) (IntArg end_) w)
      = Raise (ResponseError "value is not an integer or out of range")).
Proof.
  intros He. rewrite (peek_route_accepted w start end_ He).
  split; [apply peek_frame|]. split; [|split].
  - intros Hup Hs64 He64 Hq.
    rewrite (peek_eval w start end_ Hup Hs64 He64), Hq, lrange_list_nil.
    reflexivity.
  - intros Hup Hs64 He64 Henv.
    destruct (lrange_list_segment (queue w) start end_) as (newer & older & Hseg).
    set (window := Redis.lrange_list (queue w) start end_) in *.
    assert (Hwin : forallb is_envelope window = true).
    { rewrite Hseg in Henv. exact (forallb_app_parts _ _ _ _ Henv). }
    destruct (comprehension_loads_envelopes _ Hwin) as (msgs & Hc & Hm).
    exists newer, window, older, msgs.
    rewrite (peek_eval w start end_ Hup Hs64 He64). fold window.
    rewrite filter_str_truthy_all by (now apply is_envelope_truthy).
    rewrite Hc. repeat split; try assumption.
    unfold arrival_order. rewrite Hseg at 1.
    rewrite !rev_app_distr. now rewrite app_assoc.
  - intros Hup Hr. now rewrite (peek_out_of_range w start end_ Hup Hr).
Qed.

Lemma peek_reads_newest_first_without_effect_witness :
  0 <= 99
  /\ Redis.int64 0 = true
  /\ Redis.int64 1 = true
  /\ Redis.int64 2 = true
  /\ snd (Main.peek_route (libs := Sample.libs) (IntArg 1) (IntArg 2) Sample.world5)
     = Sample.world5
  /\ fst (Main.peek_route (libs := Sample.libs) (IntArg 0) (IntArg 0) Sample.world0)
     = Ok (messages_response [])
  /\ exists (newer window older : list string) (msgs : list Json),
       fst (Main.peek_route (libs := Sample.libs) (IntArg 1) (IntArg 2) Sample.world5)
       = Ok (messages_response msgs)
       /\ window = Redis.lrange_list (queue Sample.world5) 1 2
       /\ queue Sample.world5 = (newer ++ window ++ older)%list
       /\ map Some msgs = map (json_loads (Libraries := Sample.libs)) window
       /\ arrival_order (queue Sample.world5)
          = (arrival_order older ++ rev window ++ arrival_order newer)%list.
Proof.
  split; [lia|]. split; [reflexivity|]. split; [reflexivity|].
  split; [reflexivity|].
  split.
  { apply (peek_reads_newest_first_without_effect (libs := Sample.libs)
             Sample.world5 1 2). lia. }
  split.
  { apply (peek_reads_newest_first_without_effect (libs := Sample.libs)
             Sample.world0 0 0);
      [lia | reflexivity | reflexivity | reflexivity | reflexivity]. }
  apply (peek_reads_newest_first_without_effect (libs := Sample.libs)
           Sample.world5 1 2);
    [lia | reflexivity | reflexivity | reflexivity | vm_compute; reflexivity].
Defined.

(** [peek(1, 2)] on the five sample envelopes: the second and third
    newest, newest first, and the queue as before. *)
Example peek_1_2_of_5 :
  Main.peek_route (libs := Sample.libs) (IntArg 1) (IntArg 2) Sample.world5
  = (Ok (messages_response [Sample.e4; Sample.e3]), Sample.world5).
Proof. vm_compute. reflexivity. Qed.

(** An offset beyond 64 bits: Redis answers with an error, also on the
    empty queue. *)
Example peek_offset_out_of_range :
  Main.peek_route (libs := Sample.libs) (IntArg (2 ^ 63)) (IntArg 0) Sample.world0
  = (Raise (ResponseError "value is not an integer or out of range"),
     Sample.world0).
Proof. vm_compute. reflexivity. Qed.

(** Negative offsets count from the right end: the two oldest, the older
    one last. *)
Example peek_last_two_of_5 :
  Main.peek_route (libs := Sample.libs) (IntArg (-2)) (IntArg (-1)) Sample.world5
  = (Ok (messages_response [Sample.e2; Sample.e1]), Sample.world5).
Proof. vm_compute. reflexivity. Qed.

(** ** The answers of [peek] and [pop] *)

Section Answers.

Context {libs : Libraries}.

Lemma comprehension_loads_ok (xs : list string) : forall (msgs : list Json),
  comprehension loads xs = Ok msgs -> map Some msgs = map json_loads xs.
Proof.
  induction xs as [|x xs IH]; simpl; intros msgs H.
  - now inversion H.
  - unfold loads at 1 in H. destruct (json_loads x) as [v|]; [|discriminate].
    destruct (comprehension loads xs) as [ys|e]; [|discriminate].
    inversion H; subst. simpl. now rewrite (IH ys eq_refl).
Qed.

Lemma answer_ok (xs : list string) (resp : Json) :
  answer (comprehension loads xs) = Ok resp ->
  exists msgs : list Json,
    resp = JDict [("messages", JList msgs);
                  ("count", JNum (Z.of_nat (List.length msgs)))]
    /\ map Some msgs = map json_loads xs.
Proof.
  destruct (comprehension loads xs) as [msgs|e] eqn:Hc; simpl; intros H;
    [|discriminate].
  inversion H; subst. exists msgs. split; [reflexivity|].
  now apply comprehension_loads_ok.
Qed.

Lemma answer_decodable (xs : list string) :
  forallb decodable xs = true ->
  exists msgs : list Json,
    answer (comprehension loads xs)
    = Ok (JDict [("messages", JList msgs);
                 ("count", JNum (Z.of_nat (List.length msgs)))])
    /\ map Some msgs = map json_loads xs.
Proof.
  intros H. destruct (comprehension_loads_decodable xs H) as (msgs & Hc & Hm).
  exists msgs. rewrite Hc. split; [reflexivity | exact Hm].
Qed.

Lemma pop_route_accepted (w : World) (n : Z) :
  1 <= n <= 100 -> Main.pop_route (IntArg n) w = Main.pop n w.
Proof.
  intros Hn. unfold Main.pop_route.
  now rewrite validate_within by (now apply pop_count_within).
Qed.

End Answers.

(** C9: in every successful answer of [peek] and of [pop] the "count"
    field is the number of entries of "messages", and the messages are the
    decodings of exactly the non-empty raw entries read: an empty string
    in the list, or the nil reply of an RPOP on the exhausted list, leaves
    no message behind.  With Redis reachable, the non-empty entries
    decodable and, for [peek], offsets that Redis can parse (signed
    64-bit), the answer is successful. *)
Theorem peek_pop_count_matches_messages {libs : Libraries}
        (w : World) (start end_ n : Z) :
  end_ <= 99 ->
  1 <= n <= 100 ->
  let window := Redis.lrange_list (queue w) start end_ in
  let taken := firstn (Z.to_nat n) (arrival_order (queue w)) in
  (forall resp : Json,
      fst (Main.peek_route (IntArg start) (IntArg end_) w) = Ok resp ->
      exists msgs : list Json,
        resp = JDict [("messages", JList msgs);
                      ("count", JNum (Z.of_nat (List.length msgs)))]
        /\ map Some msgs = map json_loads (filter str_truthy window))
  /\ (forall resp : Json,
         fst (Main.pop_route (IntArg n) w) = Ok resp ->
         exists msgs : list Json,
           resp = JDict [("messages", JList msgs);
                         ("count", JNum (Z.of_nat (List.length msgs)))]
           /\ map Some msgs = map json_loads (filter str_truthy taken))
  /\ (redis_up w = true ->
      Redis.int64 start = true -> Redis.int64 end_ = true ->
      forallb decodable (filter str_truthy window) = true ->
      exists resp : Json,
        fst (Main.peek_route (IntArg start) (IntArg end_) w) = Ok resp)
  /\ (redis_up w = true ->
      forallb decodable (filter str_truthy taken) = true ->
      exists resp : Json,
        fst (Main.pop_route (IntArg n) w) = Ok resp).
Proof.
  intros He Hn window taken.
  rewrite (peek_route_accepted w start end_ He), (pop_route_accepted w n Hn).
  repeat split.
  - intros resp H.
    destruct (redis_up w) eqn:Hup;
      [|rewrite (peek_down w start end_ Hup) in H; discriminate].
    destruct (Redis.int64 start && Redis.int64 end_) eqn:Hr;
      [|rewrite (peek_out_of_range w start end_ Hup Hr) in H; discriminate].
    apply andb_prop in Hr as [Hs64 He64].
    rewrite (peek_eval w start end_ Hup Hs64 He64) in H. now apply answer_ok.
  - intros resp H. destruct (redis_up w) eqn:Hup.
    + rewrite (pop_eval w n Hup) in H. now apply answer_ok.
    + rewrite (pop_down w n Hup) in H. discriminate.
  - intros Hup Hs64 He64 Hdec. rewrite (peek_eval w start end_ Hup Hs64 He64).
    destruct (answer_decodable _ Hdec) as (msgs & Ha & _).
    fold window. simpl fst. rewrite Ha. eauto.
  - intros Hup Hdec. rewrite (pop_eval w n Hup).
    destruct (answer_decodable _ Hdec) as (msgs & Ha & _).
    fold taken. simpl fst. rewrite Ha. eauto.
Qed.

(** An empty entry in the window and a count beyond the length: two
    messages each, no null among them. *)
Example peek_pop_skip_gaps :
  Main.peek_route (libs := Sample.libs) (IntArg 0) (IntArg 9) sample_gappy
  = (Ok (messages_response [Sample.e2; Sample.e1]), sample_gappy)
  /\ Main.pop_route (libs := Sample.libs) (IntArg 10) sample_gappy
     = (Ok (messages_response [Sample.e1; Sample.e2]), set_queue sample_gappy []).
Proof. vm_compute. split; reflexivity. Qed.

Lemma peek_pop_count_matches_messages_witness :
  9 <= 99
  /\ 1 <= 10 <= 100
  /\ Redis.int64 0 = true
  /\ Redis.int64 9 = true
  /\ (exists msgs : list Json,
         fst (Main.peek_route (libs := Sample.libs) (IntArg 0) (IntArg 9)
                sample_gappy)
         = Ok (JDict [("messages", JList msgs);
                      ("count", JNum (Z.of_nat (List.length msgs)))])
         /\ map Some msgs
            = map (json_loads (Libraries := Sample.libs))
                (filter str_truthy (Redis.lrange_list (queue sample_gappy) 0 9)))
  /\ (exists msgs : list Json,
         fst (Main.pop_route (libs := Sample.libs) (IntArg 10) sample_gappy)
         = Ok (JDict [("messages", JList msgs);
                      ("count", JNum (Z.of_nat (List.length msgs)))])
         /\ map Some msgs
            = map (json_loads (Libraries := Sample.libs))
                (filter str_truthy
                   (firstn (Z.to_nat 10) (arrival_order (queue sample_gappy))))).
Proof.
  split; [lia|]. split; [lia|]. split; [reflexivity|]. split; [reflexivity|].
  destruct (peek_pop_count_matches_messages (libs := Sample.libs)
              sample_gappy 0 9 10 ltac:(lia) ltac:(lia))
    as (Hpeek & Hpop & Hpeek_ok & Hpop_ok).
  destruct (Hpeek_ok eq_refl eq_refl eq_refl eq_refl) as (r1 & Hr1).
  destruct (Hpop_ok eq_refl eq_refl) as (r2 & Hr2).
  destruct (Hpeek r1 Hr1) as (m1 & -> & Hm1).
  destruct (Hpop r2 Hr2) as (m2 & -> & Hm2).
  split; [exists m1 | exists m2]; split; assumption.
Defined.

(** ** The connector helpers *)

Lemma baileys_get_eval (path : string) (w : World) :
  baileys_get path w = (reply_result (baileys w (get_request path)), w).
Proof.
  unfold baileys_get, get_request, bind, http_send, reply_result.
  destruct (baileys w _) as [reason | c [v|]]; [reflexivity| |];
    unfold raise_for_status; cbn [resp_status_code];
    destruct (is_success c); reflexivity.
Qed.

Lemma baileys_post_eval (path : string) (data : Json) (w : World) :
  baileys_post path data w
  = (reply_result (baileys w (post_request path data)), w).
Proof.
  unfold baileys_post, post_request, bind, http_send, reply_result.
  destruct (baileys w _) as [reason | c [v|]]; [reflexivity| |];
    unfold raise_for_status; cbn [resp_status_code];
    destruct (is_success c); reflexivity.
Qed.

Lemma reply_error_result (r : Reply) (e : Exn) :
  reply_error r = Some e -> reply_result r = Raise e.
Proof.
  destruct r as [reason | c [v|]]; simpl.
  - intros H. now inversion H.
  - destruct (is_success c); intros H; [discriminate | now inversion H].
  - destruct (is_success c); intros H; now inversion H.
Qed.

Lemma reply_result_raise (r : Reply) (e : Exn) :
  reply_result r = Raise e -> reply_error r = Some e.
Proof.
  destruct r as [reason | c [v|]]; simpl.
  - intros H. now inversion H.
  - destruct (is_success c); intros H; [discriminate | now inversion H].
  - destruct (is_success c); intros H; now inversion H.
Qed.

(** ** Health *)

Lemma store_probe_up (w : World) : store_probe w = redis_up w.
Proof.
  unfold store_probe, Redis.ping, Redis.round_trip.
  now destruct (redis_up w).
Qed.

Lemma connector_probe_reply (w : World) :
  connector_probe w
  = match reply_result (baileys w (get_request "/status")) with
    | Ok _ => true
    | Raise _ => false
    end.
Proof.
  unfold connector_probe. rewrite baileys_get_eval.
  now destruct (reply_result _).
Qed.

Lemma health_eval (w : World) :
  Main.health w
  = (Ok (JDict
           [("status", JStr (if store_probe w && connector_probe w
                             then "healthy" else "degraded"));
            ("redis", JStr (if store_probe w then "ok" else "error"));
            ("baileys", JStr (if connector_probe w then "ok" else "error"))]),
     w).
Proof.
  rewrite store_probe_up, connector_probe_reply.
  unfold Main.health, bind, try_except, Redis.ping, Redis.round_trip, ret.
  destruct (redis_up w); rewrite baileys_get_eval;
    destruct (reply_result _); reflexivity.
Qed.

Lemma health_old_same (w : World) : MainOld.health w = Main.health w.
Proof. reflexivity. Qed.

(** C4: [health] never raises, in either module: whatever the two probes
    do, it answers, and leaves the world as it was.  The answer says
    "healthy" exactly when the Redis ping and GET /status both return;
    otherwise it says "degraded", and each dependency is reported "ok" when
    its probe returned and "error" when it raised. *)
Theorem health_never_raises (w : World) :
  let store := store_probe w in
  let connector := connector_probe w in
  let items :=
    [("status", JStr (if store && connector then "healthy" else "degraded"));
     ("redis", JStr (if store then "ok" else "error"));
     ("baileys", JStr (if connector then "ok" else "error"))] in
  Main.health w = (Ok (JDict items), w)
  /\ MainOld.health w = (Ok (JDict items), w)
  /\ (assoc "status" items = Some (JStr "healthy")
      <-> store = true /\ connector = true)
  /\ (assoc "status" items = Some (JStr "degraded")
      <-> store = false \/ connector = false)
  /\ (assoc "redis" items = Some (JStr "error") <-> store = false)
  /\ (assoc "redis" items = Some (JStr "ok") <-> store = true)
  /\ (assoc "baileys" items = Some (JStr "error") <-> connector = false)
  /\ (assoc "baileys" items = Some (JStr "ok") <-> connector = true)
  /\ (store = true <-> exists pong, Redis.ping w = (Ok pong, w))
  /\ (connector = true <-> exists body, baileys_get "/status" w = (Ok body, w)).
Proof.
  intros store connector items.
  split; [apply health_eval|].
  split; [rewrite health_old_same; apply health_eval|].
  assert (Hcases : forall b : bool,
             (Some (JStr (if b then "ok" else "error")) = Some (JStr "error")
              <-> b = false)
             /\ (Some (JStr (if b then "ok" else "error")) = Some (JStr "ok")
                 <-> b = true)).
  { intros []; split; split; intros H; try reflexivity; discriminate. }
  split.
  { unfold items. cbn [assoc String.eqb Ascii.eqb Bool.eqb].
    destruct store, connector; simpl; split; intros H;
      try discriminate; try (now split); destruct H; discriminate. }
  split.
  { unfold items. cbn [assoc String.eqb Ascii.eqb Bool.eqb].
    destruct store, connector; simpl; split; intros H;
      try discriminate; try reflexivity; auto; destruct H; discriminate. }
  split; [apply (Hcases store)|]. split; [apply (Hcases store)|].
  split; [apply (Hcases connector)|]. split; [apply (Hcases connector)|].
  split.
  - unfold store, store_probe, Redis.ping, Redis.round_trip.
    destruct (redis_up w); split; intros H;
      try discriminate; try reflexivity; eauto.
    destruct H as (pong & H). discriminate.
  - unfold connector, connector_probe.
    rewrite baileys_get_eval.
    destruct (reply_result _) as [v|e]; split; intros H;
      try discriminate; try reflexivity; eauto.
    destruct H as (body & H). discriminate.
Qed.

(** All four combinations of probe outcomes. *)
Example health_both_ok :
  fst (Main.health Sample.world5)
  = Ok (JDict [("status", JStr "healthy"); ("redis", JStr "ok");
               ("baileys", JStr "ok")]).
Proof. vm_compute. reflexivity. Qed.

Example health_connector_down :
  fst (Main.health (mkWorld true [] Sample.connector_down))
  = Ok (JDict [("status", JStr "degraded"); ("redis", JStr "ok");
               ("baileys", JStr "error")]).
Proof. vm_compute. reflexivity. Qed.

Example health_redis_down :
  fst (Main.health (mkWorld false [] Sample.connector_ready))
  = Ok (JDict [("status", JStr "degraded"); ("redis", JStr "error");
               ("baileys", JStr "ok")]).
Proof. vm_compute. reflexivity. Qed.

Example health_both_down :
  fst (MainOld.health (mkWorld false [] Sample.connector_down))
  = Ok (JDict [("status", JStr "degraded"); ("redis", JStr "error");
               ("baileys", JStr "error")]).
Proof. vm_compute. reflexivity. Qed.

(** ** Parameter bounds *)

(** C7: the bounds declared on the read routes are checked before the
    handler runs.  [stream_read] takes [count] in 1..100, [trace] takes
    [limit] in 1..500, [peek] takes [end] up to 99 and [pop] takes [count]
    in 1..100: a value within the bound reaches the handler, a value
    outside it is answered with a validation error (422) and the world,
    the store included, is as before. *)
Theorem read_api_bounds_enforced {libs : Libraries}
        (w : World) (z start : Z) (lastId jid : string) :
  MainOld.stream_read_route (IntArg z) (Some lastId) w
  = (if (1 <=? z) && (z <=? 100) then MainOld.stream_read z lastId w
     else (Raise (RequestValidationError "count"), w))
  /\ MainOld.trace_conversation_route jid (IntArg z) w
     = (if (1 <=? z) && (z <=? 500) then MainOld.trace_conversation jid z w
        else (Raise (RequestValidationError "limit"), w))
  /\ Main.peek_route (IntArg start) (IntArg z) w
     = (if z <=? 99 then Main.peek start z w
        else (Raise (RequestValidationError "end"), w))
  /\ Main.pop_route (IntArg z) w
     = (if (1 <=? z) && (z <=? 100) then Main.pop z w
        else (Raise (RequestValidationError "count"), w))
  /\ http_status (A := Json) (Raise (RequestValidationError "count")) = 422.
Proof.
  unfold MainOld.stream_read_route, MainOld.trace_conversation_route,
    Main.peek_route, Main.pop_route, validate, within, bind, ret, raise.
  cbn [q_ge q_le MainOld.stream_read_count MainOld.trace_limit
       Main.peek_start Main.peek_end Main.pop_count andb].
  repeat split.
  - destruct ((1 <=? z) && (z <=? 100)); reflexivity.
  - destruct ((1 <=? z) && (z <=? 500)); reflexivity.
  - destruct (z <=? 99); reflexivity.
  - destruct ((1 <=? z) && (z <=? 100)); reflexivity.
Qed.

(** Values on and next to each bound. *)
Example pop_rejects_0_and_101 :
  Main.pop_route (libs := Sample.libs) (IntArg 0) Sample.world5
  = (Raise (RequestValidationError "count"), Sample.world5)
  /\ Main.pop_route (libs := Sample.libs) (IntArg 101) Sample.world5
     = (Raise (RequestValidationError "count"), Sample.world5)
  /\ Main.peek_route (libs := Sample.libs) (IntArg 0) (IntArg 100) Sample.world5
     = (Raise (RequestValidationError "end"), Sample.world5)
  /\ fst (MainOld.trace_conversation_route "972501234567" (IntArg 501) Sample.world5)
     = Raise (RequestValidationError "limit")
  /\ fst (MainOld.trace_conversation_route "972501234567" (IntArg 500) Sample.world5)
     = Ok (JDict [("status", JStr "connected"); ("length", JNum 3)]).
Proof. vm_compute. repeat split; reflexivity. Qed.

(** ** Queue status *)

Lemma queue_status_eval (w : World) :
  Main.queue_status w
  = (if redis_up w
     then Ok (JDict [("queue_length", JNum (len (queue w)));
                     ("queue_key", JStr QUEUE_KEY)])
     else Raise RedisConnectionError,
     w).
Proof.
  unfold Main.queue_status, bind, Redis.llen, Redis.round_trip.
  rewrite list_at_queue. destruct (redis_up w); reflexivity.
Qed.

Lemma queue_status_legacy_eval (w : World) :
  MainOld.queue_status_legacy w
  = (match reply_result (baileys w (get_request "/messages/stream/info")) with
     | Ok (JDict info) =>
         Ok (JDict [("queue_length",
                     match assoc "length" info with
                     | Some v => v
                     | None => JNum 0
                     end)])
     | Ok _ => Raise (AttributeError "get")
     | Raise e => Raise e
     end, w).
Proof.
  unfold MainOld.queue_status_legacy. unfold bind at 1.
  rewrite baileys_get_eval.
  destruct (reply_result _) as [[| | | | |info]|e]; reflexivity.
Qed.

(** C8: [queue_status] answers with the number of entries in the list,
    the value of LLEN, and in stream mode with the length that the stream
    info of the connector reports (0 when it reports none); in both modes
    the world, the store included, is as before. *)
Theorem queue_status_is_length (w : World) :
  snd (Main.queue_status w) = w
  /\ snd (MainOld.queue_status_legacy w) = w
  /\ (redis_up w = true ->
      Main.queue_status w
      = (Ok (JDict [("queue_length", JNum (Z.of_nat (List.length (queue w))));
                    ("queue_key", JStr QUEUE_KEY)]), w)
      /\ fst (Redis.llen QUEUE_KEY w) = Ok (Z.of_nat (List.length (queue w))))
  /\ (forall info : list (string * Json),
         baileys_get "/messages/stream/info" w = (Ok (JDict info), w) ->
         MainOld.queue_status_legacy w
         = (Ok (JDict [("queue_length",
                        match assoc "length" info with
                        | Some reported => reported
                        | None => JNum 0
                        end)]), w)).
Proof.
  rewrite queue_status_eval, queue_status_legacy_eval.
  split; [reflexivity|]. split; [reflexivity|]. split.
  - intros Hup. rewrite Hup. split; [reflexivity|].
    unfold Redis.llen, Redis.round_trip. now rewrite Hup.
  - intros info Hinfo. rewrite baileys_get_eval in Hinfo.
    inversion Hinfo as [Hr]. now rewrite Hr.
Qed.

Lemma queue_status_is_length_witness :
  redis_up Sample.world5 = true
  /\ baileys_get "/messages/stream/info" Sample.world5
     = (Ok (JDict [("status", JStr "connected"); ("length", JNum 3)]),
        Sample.world5)
  /\ Main.queue_status Sample.world5
     = (Ok (JDict [("queue_length", JNum 5); ("queue_key", JStr QUEUE_KEY)]),
        Sample.world5)
  /\ MainOld.queue_status_legacy Sample.world5
     = (Ok (JDict [("queue_length", JNum 3)]), Sample.world5).
Proof.
  split; [reflexivity|]. split; [reflexivity|].
  destruct (queue_status_is_length Sample.world5) as (_ & _ & Hq & Hold).
  split.
  - exact (proj1 (Hq eq_refl)).
  - exact (Hold [("status", JStr "connected"); ("length", JNum 3)] eq_refl).
Defined.

(** ** Failures of the connector *)

Lemma run_send_eval (op : SendOp) (w : World) :
  run_send op w = (reply_result (baileys w (send_request op)), w).
Proof.
  destruct op; simpl; unfold Main.send_text, Main.send_image,
    Main.send_buttons, Main.send_list, Main.send_template, Main.send_reaction;
    apply baileys_post_eval.
Qed.

Lemma status_eval (w : World) :
  Main.status w
  = (match reply_result (baileys w (get_request "/status")) with
     | Ok v => Ok v
     | Raise e => Raise (HTTPException 503 ("Baileys unavailable: " ++ str_exn e))
     end, w).
Proof.
  unfold Main.status, try_except. rewrite baileys_get_eval.
  destruct (reply_result _); reflexivity.
Qed.

Lemma reply_error_status_500 (r : Reply) (e : Exn) :
  reply_error r = Some e -> http_status (A := Json) (Raise e) = 500.
Proof.
  destruct r as [reason | c [v|]]; simpl.
  - intros H. now inversion H.
  - destruct (is_success c); intros H; [discriminate | now inversion H].
  - destruct (is_success c); intros H; now inversion H.
Qed.

Section QrcodeFailure.

Context {libs : Libraries}.

Lemma get_qrcode_connector_error (w : World) (e : Exn) :
  reply_error (baileys w (get_request "/qrcode")) = Some e ->
  Main.get_qrcode w
  = (Raise (match e with
            | HTTPStatusError c =>
                HTTPException c "QR not available – check /status"
            | _ => HTTPException 503 (str_exn e)
            end), w).
Proof.
  intros He. apply reply_error_result in He.
  unfold Main.get_qrcode, try_except. unfold bind at 1.
  rewrite baileys_get_eval, He.
  destruct e; reflexivity.
Qed.

Lemma get_qrcode_old_connector_error (w : World) (e : Exn) :
  reply_error (baileys w (get_request "/qrcode")) = Some e ->
  MainOld.get_qrcode w
  = (Raise (match e with
            | HTTPStatusError _ =>
                HTTPException 404 "QR not available – check /status"
            | _ => HTTPException 503 (str_exn e)
            end), w).
Proof.
  intros He. apply reply_error_result in He.
  unfold MainOld.get_qrcode, try_except. unfold bind at 1.
  rewrite baileys_get_eval, He.
  destruct e; reflexivity.
Qed.

End QrcodeFailure.

(** C5, as the code has it: when the connector does not answer or answers
    with an error, [status] raises an [HTTPException] 503; [get_qrcode]
    raises an [HTTPException] that carries the status code of the
    connector when the connector answered with an error status, and 503 for
    any other failure; each send operation lets the exception of the helper
    leave the handler as it is, which the framework answers with 500.  In
    every case the operation raises: no failure is swallowed. *)
Theorem connector_failure_surfaced {libs : Libraries} (w : World) (e : Exn) :
  (reply_error (baileys w (request_of Status)) = Some e ->
   run_connection_op Status w
   = (Raise (HTTPException 503 ("Baileys unavailable: " ++ str_exn e)), w))
  /\ (reply_error (baileys w (request_of Qrcode)) = Some e ->
      run_connection_op Qrcode w
      = (Raise (match e with
                | HTTPStatusError c =>
                    HTTPException c "QR not available – check /status"
                | _ => HTTPException 503 (str_exn e)
                end), w))
  /\ (forall op : SendOp,
         reply_error (baileys w (request_of (Send op))) = Some e ->
         run_connection_op (Send op) w = (Raise e, w)
         /\ http_status (fst (run_connection_op (Send op) w)) = 500)
  /\ (forall op : ConnectionOp,
         reply_error (baileys w (request_of op)) = Some e ->
         exists raised : Exn, run_connection_op op w = (Raise raised, w)).
Proof.
  assert (Hstatus : reply_error (baileys w (request_of Status)) = Some e ->
                    run_connection_op Status w
                    = (Raise (HTTPException 503
                                ("Baileys unavailable: " ++ str_exn e)), w)).
  { intros He. cbn [run_connection_op request_of] in *.
    rewrite status_eval, (reply_error_result _ _ He). reflexivity. }
  assert (Hsend : forall op : SendOp,
             reply_error (baileys w (request_of (Send op))) = Some e ->
             run_connection_op (Send op) w = (Raise e, w)).
  { intros op He. cbn [run_connection_op request_of] in *.
    rewrite run_send_eval, (reply_error_result _ _ He). reflexivity. }
  split; [exact Hstatus|].
  split; [apply get_qrcode_connector_error|].
  split.
  - intros op He. split; [now apply Hsend|].
    rewrite (Hsend op He). simpl fst.
    exact (reply_error_status_500 _ _ He).
  - intros [| |op] He.
    + eexists. now apply Hstatus.
    + eexists. exact (get_qrcode_connector_error w e He).
    + eexists. now apply Hsend.
Qed.

Lemma connector_failure_surfaced_witness :
  reply_error (baileys world_down (request_of Status))
  = Some (TransportError "All connection attempts failed")
  /\ run_connection_op (libs := Sample.libs) Status world_down
     = (Raise (HTTPException 503
                 "Baileys unavailable: All connection attempts failed"),
        world_down)
  /\ run_connection_op (libs := Sample.libs) Qrcode world_down
     = (Raise (HTTPException 503 "All connection attempts failed"), world_down)
  /\ run_connection_op (libs := Sample.libs) (Send (SendText sample_text))
       world_down
     = (Raise (TransportError "All connection attempts failed"), world_down).
Proof.
  destruct (connector_failure_surfaced (libs := Sample.libs) world_down
              (TransportError "All connection attempts failed"))
    as (Hstatus & Hqr & Hsend & _).
  split; [reflexivity|].
  split; [exact (Hstatus eq_refl)|].
  split; [exact (Hqr eq_refl)|].
  exact (proj1 (Hsend (SendText sample_text) eq_refl)).
Defined.

(** The claim as the spec words it, 503 for every connection-bound
    operation, fails on a send with the connector down (the transport error
    leaves the handler, a 500) and on [get_qrcode] when the connector
    answers 404 (an [HTTPException] 404). *)
Lemma connector_failure_not_always_503 :
  reply_error (baileys world_down (request_of (Send (SendText sample_text))))
  = Some (TransportError "All connection attempts failed")
  /\ Main.send_text sample_text world_down
     = (Raise (TransportError "All connection attempts failed"), world_down)
  /\ http_status (fst (Main.send_text sample_text world_down)) = 500
  /\ reply_error (baileys world_no_qr (request_of Qrcode))
     = Some (HTTPStatusError 404)
  /\ Main.get_qrcode (libs := Sample.libs) world_no_qr
     = (Raise (HTTPException 404 "QR not available – check /status"),
        world_no_qr)
  /\ ~ (forall (op : ConnectionOp) (w : World) (e : Exn),
           reply_error (baileys w (request_of op)) = Some e ->
           http_status (fst (run_connection_op (libs := Sample.libs) op w)) = 503).
Proof.
  split; [reflexivity|]. split; [reflexivity|]. split; [reflexivity|].
  split; [reflexivity|]. split; [reflexivity|].
  intros H.
  specialize (H (Send (SendText sample_text)) world_down
                (TransportError "All connection attempts failed") eq_refl).
  vm_compute in H. discriminate.
Qed.

(** ** The QR code *)

Section QrcodeSuccess.

Context {libs : Libraries}.

(** [get_qrcode] on a 2xx reply whose body is a JSON object. *)
Lemma get_qrcode_eval (w : World) (c : Z) (items : list (string * Json)) :
  baileys w (get_request "/qrcode") = HttpReply c (Some (JDict items)) ->
  is_success c = true ->
  let qr := lookup_or_null "qr" items in
  let st := lookup_or_null "status" items in
  Main.get_qrcode w
  = (if truthy qr
     then match qrcode_png_base64 qr with
          | Some b64 =>
              Ok (JDict [("qr", qr); ("qr_image_base64", JStr b64); ("status", st)])
          | None => Raise (HTTPException 503 (str_exn DataOverflowError))
          end
     else Ok (JDict [("qr", qr); ("qr_image_base64", JNull); ("status", st)]),
     w).
Proof.
  intros Hreply Hc qr st.
  unfold Main.get_qrcode, try_except. unfold bind at 1.
  rewrite baileys_get_eval, Hreply. cbn [reply_result]. rewrite Hc.
  unfold qr, st, lookup_or_null, dict_get, getitem, qrcode_make_b64.
  destruct (assoc "qr" items) as [v|] eqn:Hqr.
  - unfold bind, ret, raise. destruct (truthy v).
    + destruct (qrcode_png_base64 v) as [b64|]; reflexivity.
    + reflexivity.
  - reflexivity.
Qed.

Lemma get_qrcode_old_same_on_success (w : World) (c : Z)
      (items : list (string * Json)) :
  baileys w (get_request "/qrcode") = HttpReply c (Some (JDict items)) ->
  is_success c = true ->
  MainOld.get_qrcode w = Main.get_qrcode w.
Proof.
  intros Hreply Hc.
  unfold MainOld.get_qrcode, Main.get_qrcode, try_except, bind.
  rewrite baileys_get_eval, Hreply. cbn [reply_result]. rewrite Hc.
  unfold dict_get, getitem, qrcode_make_b64, ret, raise.
  destruct (assoc "qr" items) as [v|] eqn:Hqr.
  - destruct (truthy v).
    + destruct (qrcode_png_base64 v) as [b64|]; reflexivity.
    + reflexivity.
  - reflexivity.
Qed.

End QrcodeSuccess.

(** C10, as the code has it: on a 2xx reply of the connector whose body
    is a JSON object, and provided the renderer does not fail on a truthy
    "qr", [get_qrcode] succeeds; "qr" and "status" are passed through
    ([null] when absent), and "qr_image_base64" is the base64 text of the
    rendered PNG when "qr" is truthy and [null] otherwise, so it is
    non-null exactly when "qr" is truthy. *)
Theorem get_qrcode_on_json_object {libs : Libraries}
        (w : World) (c : Z) (items : list (string * Json)) :
  baileys w (get_request "/qrcode") = HttpReply c (Some (JDict items)) ->
  is_success c = true ->
  let qr := lookup_or_null "qr" items in
  let st := lookup_or_null "status" items in
  (truthy qr = true -> qrcode_png_base64 qr <> None) ->
  exists img : Json,
    Main.get_qrcode w
    = (Ok (JDict [("qr", qr); ("qr_image_base64", img); ("status", st)]), w)
    /\ MainOld.get_qrcode w
       = (Ok (JDict [("qr", qr); ("qr_image_base64", img); ("status", st)]), w)
    /\ (truthy qr = true ->
        exists b64 : string, img = JStr b64 /\ qrcode_png_base64 qr = Some b64)
    /\ (truthy qr = false -> img = JNull)
    /\ (img <> JNull <-> truthy qr = true).
Proof.
  intros Hreply Hc qr st Hrender.
  rewrite (get_qrcode_old_same_on_success w c items Hreply Hc).
  rewrite (get_qrcode_eval w c items Hreply Hc).
  fold qr. fold st.
  destruct (truthy qr) eqn:Hqr.
  - destruct (qrcode_png_base64 qr) as [b64|] eqn:Hpng;
      [|now exfalso; apply Hrender].
    exists (JStr b64). repeat split; try reflexivity; try discriminate.
    exists b64. now split.
  - exists JNull. repeat split; try reflexivity; try discriminate.
    intros H. now exfalso.
Qed.

Lemma get_qrcode_on_json_object_witness :
  baileys Sample.world5 (get_request "/qrcode")
  = HttpReply 200 (Some (JDict [("qr", JStr "2@abc"); ("status", JStr "qr")]))
  /\ is_success 200 = true
  /\ qrcode_png_base64 (Libraries := Sample.libs) (JStr "2@abc") <> None
  /\ exists img : Json,
       Main.get_qrcode (libs := Sample.libs) Sample.world5
       = (Ok (JDict [("qr", JStr "2@abc"); ("qr_image_base64", img);
                     ("status", JStr "qr")]), Sample.world5)
       /\ MainOld.get_qrcode (libs := Sample.libs) Sample.world5
          = (Ok (JDict [("qr", JStr "2@abc"); ("qr_image_base64", img);
                        ("status", JStr "qr")]), Sample.world5)
       /\ img <> JNull.
Proof.
  split; [reflexivity|]. split; [reflexivity|].
  split; [vm_compute; discriminate|].
  destruct (get_qrcode_on_json_object (libs := Sample.libs) Sample.world5 200
              [("qr", JStr "2@abc"); ("status", JStr "qr")] eq_refl eq_refl)
    as (img & Hnew & Hold & _ & _ & Hiff).
  - intros _. vm_compute. discriminate.
  - exists img. split; [exact Hnew|]. split; [exact Hold|].
    apply Hiff. reflexivity.
Defined.

(** A reply without a QR code, and one with a QR code. *)
Example get_qrcode_without_qr :
  fst (Main.get_qrcode (libs := Sample.libs)
         (mkWorld true []
            (fun _ => HttpReply 200 (Some (JDict [("status", JStr "connected")])))))
  = Ok (JDict [("qr", JNull); ("qr_image_base64", JNull);
               ("status", JStr "connected")]).
Proof. vm_compute. reflexivity. Qed.

Example get_qrcode_with_qr :
  fst (Main.get_qrcode (libs := Sample.libs) Sample.world5)
  = Ok (JDict [("qr", JStr "2@abc");
               ("qr_image_base64", JStr "iVBORw0KGgo2@abc");
               ("status", JStr "qr")]).
Proof. vm_compute. reflexivity. Qed.

(** The claim as worded, success on every response of the connector,
    fails when the connector answers GET /qrcode with 404: the handler
    raises "QR not available". *)
Lemma get_qrcode_raises_on_404 :
  baileys world_no_qr (get_request "/qrcode")
  = HttpReply 404 (Some (JDict [("error", JStr "QR not available")]))
  /\ Main.get_qrcode (libs := Sample.libs) world_no_qr
     = (Raise (HTTPException 404 "QR not available – check /status"),
        world_no_qr)
  /\ MainOld.get_qrcode (libs := Sample.libs) world_no_qr
     = (Raise (HTTPException 404 "QR not available – check /status"),
        world_no_qr)
  /\ ~ (forall (w : World) (c : Z) (body : option Json),
           baileys w (get_request "/qrcode") = HttpReply c body ->
           exists resp : Json,
             fst (Main.get_qrcode (libs := Sample.libs) w) = Ok resp).
Proof.
  split; [reflexivity|]. split; [reflexivity|]. split; [reflexivity|].
  intros H.
  destruct (H world_no_qr 404
              (Some (JDict [("error", JStr "QR not available")])) eq_refl)
    as (resp & Hresp).
  vm_compute in Hresp. discriminate.
Qed.

(** ** The webhook dispatcher *)

Section DispatcherFacts.

Variables (base factor : Z) (max_attempts : nat) (endpoint : nat -> bool).
Hypothesis base_pos : 0 < base.
Hypothesis factor_gt_1 : 1 < factor.
Hypothesis cap_pos : (1 <= max_attempts)%nat.

#[local] Abbreviation step := (Dispatcher.step base factor max_attempts endpoint).
#[local] Abbreviation run := (Dispatcher.run base factor max_attempts endpoint).
#[local] Abbreviation inv := (delivery_inv base factor max_attempts endpoint).
#[local] Abbreviation backoff := (Dispatcher.backoff base factor).

Lemma repeat_snoc {A} (x : A) (n : nat) :
  (repeat x n ++ [x])%list = repeat x (S n).
Proof.
  induction n as [|n IH]; simpl; [reflexivity|]. now rewrite IH.
Qed.

Lemma step_inv (d : Dispatcher.Delivery) : inv d -> inv (step d).
Proof.
  unfold delivery_inv, Dispatcher.step.
  intros (Hw & Hs).
  destruct (Dispatcher.state d) as [|k|k| |] eqn:Hst.
  - destruct Hs as (Ho & Hw0). cbn [Dispatcher.state Dispatcher.waits Dispatcher.outcomes].
    split; [exact Hw|]. rewrite Ho, Hw0. simpl.
    repeat split; try lia.
  - destruct Hs as (Hk & Ho & Hl & Hf).
    destruct (endpoint k) eqn:He.
    + cbn [Dispatcher.state Dispatcher.waits Dispatcher.outcomes].
      split; [exact Hw|]. exists k. rewrite Ho. auto.
    + destruct (k <? max_attempts)%nat eqn:Hlt.
      * apply Nat.ltb_lt in Hlt.
        cbn [Dispatcher.state Dispatcher.waits Dispatcher.outcomes].
        split; [exact Hw|]. rewrite Ho, repeat_snoc.
        replace (S (k - 1))%nat with k by lia.
        repeat split; try lia; auto.
        intros j Hj. destruct (Nat.eq_dec j k) as [->|Hne]; [exact He|].
        apply Hf. lia.
      * apply Nat.ltb_ge in Hlt.
        cbn [Dispatcher.state Dispatcher.waits Dispatcher.outcomes].
        split; [exact Hw|]. rewrite Ho, repeat_snoc.
        assert (k = max_attempts) by lia. subst k.
        replace (S (max_attempts - 1))%nat with max_attempts by lia.
        repeat split; auto.
        intros j Hj. destruct (Nat.eq_dec j max_attempts) as [->|Hne]; [exact He|].
        apply Hf. lia.
  - destruct Hs as (Hk & Ho & Hl & Hf).
    cbn [Dispatcher.state Dispatcher.waits Dispatcher.outcomes].
    split.
    + rewrite length_app. simpl List.length.
      rewrite Nat.add_1_r, seq_S, map_app, <- Hw. simpl.
      rewrite Hl. replace (S (k - 1))%nat with k by lia. reflexivity.
    + repeat split; try lia.
      * rewrite Ho. simpl. now rewrite Nat.sub_0_r.
      * rewrite length_app, Hl. simpl. lia.
      * intros j Hj. apply Hf. lia.
  - rewrite Hst. split; assumption.
  - rewrite Hst. split; assumption.
Qed.

Lemma run_inv (fuel : nat) : forall d, inv d -> inv (run fuel d).
Proof.
  induction fuel as [|fuel IH]; intros d Hd; simpl; [exact Hd|].
  apply IH. now apply step_inv.
Qed.

Lemma step_rank (d : Dispatcher.Delivery) :
  inv d ->
  (delivery_rank max_attempts (step d) <= delivery_rank max_attempts d - 1)%nat.
Proof.
  unfold delivery_inv, delivery_rank, Dispatcher.step.
  intros (_ & Hs).
  destruct (Dispatcher.state d) as [|k|k| |] eqn:Hst; simpl.
  - lia.
  - destruct Hs as (Hk & _).
    destruct (endpoint k); simpl; [lia|].
    destruct (k <? max_attempts)%nat; simpl; lia.
  - destruct Hs as (Hk & _). lia.
  - rewrite Hst. lia.
  - rewrite Hst. lia.
Qed.

Lemma run_rank (fuel : nat) : forall d,
  inv d ->
  (delivery_rank max_attempts (run fuel d)
   <= delivery_rank max_attempts d - fuel)%nat.
Proof.
  induction fuel as [|fuel IH]; intros d Hd; simpl; [lia|].
  pose proof (step_rank d Hd) as Hr.
  pose proof (IH (step d) (step_inv d Hd)) as Hrun. lia.
Qed.

Lemma rank_0_terminal (d : Dispatcher.Delivery) :
  inv d ->
  delivery_rank max_attempts d = 0%nat ->
  Dispatcher.state d = Dispatcher.Acked \/ Dispatcher.state d = Dispatcher.Exhausted.
Proof.
  unfold delivery_inv, delivery_rank. intros (_ & Hs) Hr.
  destruct (Dispatcher.state d) as [|k|k| |]; auto; try lia.
Qed.

Lemma backoff_grows (k : nat) :
  (1 <= k)%nat -> backoff k < backoff (S k).
Proof.
  clear cap_pos. intros Hk. unfold Dispatcher.backoff.
  replace (Z.of_nat (S k - 1)) with (Z.succ (Z.of_nat (k - 1))) by lia.
  rewrite Z.pow_succ_r by lia.
  assert (Hp : 0 < factor ^ Z.of_nat (k - 1)) by (apply Z.pow_pos_nonneg; lia).
  nia.
Qed.

Lemma backoffs_increasing (n : nat) : forall (k : nat),
  (1 <= k)%nat ->
  Dispatcher.strictly_increasing (map backoff (seq k n)).
Proof.
  clear cap_pos.
  induction n as [|n IH]; intros k Hk; simpl; [exact I|].
  destruct n as [|n]; simpl; [exact I|].
  split; [now apply backoff_grows|].
  apply (IH (S k)). lia.
Qed.

Lemma successes_repeat_false (n : nat) :
  List.length (filter (fun ok : bool => ok) (repeat false n)) = 0%nat.
Proof. induction n; simpl; auto. Qed.

Lemma deliver_inv :
  inv (Dispatcher.deliver base factor max_attempts endpoint).
Proof.
  apply run_inv. unfold delivery_inv. simpl. auto.
Qed.

Lemma deliver_terminal :
  let d := Dispatcher.deliver base factor max_attempts endpoint in
  Dispatcher.state d = Dispatcher.Acked \/ Dispatcher.state d = Dispatcher.Exhausted.
Proof.
  intros d. apply rank_0_terminal; [apply deliver_inv|].
  assert (Hinit : inv (Dispatcher.mkDelivery Dispatcher.Idle [] [])).
  { unfold delivery_inv. simpl. auto. }
  pose proof (run_rank (2 * max_attempts) _ Hinit) as Hr.
  unfold d, Dispatcher.deliver.
  change (delivery_rank max_attempts (Dispatcher.mkDelivery Dispatcher.Idle [] []))
    with (2 * max_attempts)%nat in Hr.
  lia.
Qed.

End DispatcherFacts.

(** C6, on the dispatcher modelled from the spec: every delivery ends,
    Acked or Exhausted, after at most [max_attempts] attempts; the waits
    between attempts are base, base * factor, base * factor^2, ..., strictly
    increasing; an Acked delivery records exactly one success, and a
    delivery is Exhausted exactly when every attempt up to the cap fails;
    a subscriber that fails twice and succeeds on the third attempt is
    Acked with one success after waits of base and base * factor; and the
    store is the same after the dispatch. *)
Theorem webhook_retry_policy
        (base factor : Z) (max_attempts : nat) (endpoint : nat -> bool)
        (store : list string) :
  0 < base ->
  1 < factor ->
  (3 <= max_attempts)%nat ->
  let d := Dispatcher.deliver base factor max_attempts endpoint in
  (Dispatcher.state d = Dispatcher.Acked
   \/ Dispatcher.state d = Dispatcher.Exhausted)
  /\ (1 <= List.length (Dispatcher.outcomes d) <= max_attempts)%nat
  /\ Dispatcher.waits d
     = map (Dispatcher.backoff base factor)
         (seq 1 (List.length (Dispatcher.outcomes d) - 1))
  /\ Dispatcher.strictly_increasing (Dispatcher.waits d)
  /\ (Dispatcher.state d = Dispatcher.Acked -> Dispatcher.successes d = 1%nat)
  /\ (Dispatcher.state d = Dispatcher.Exhausted ->
      Dispatcher.successes d = 0%nat
      /\ List.length (Dispatcher.outcomes d) = max_attempts)
  /\ (Dispatcher.state d = Dispatcher.Exhausted
      <-> forall k, (1 <= k <= max_attempts)%nat -> endpoint k = false)
  /\ (endpoint 1%nat = false -> endpoint 2%nat = false -> endpoint 3%nat = true ->
      Dispatcher.state d = Dispatcher.Acked
      /\ Dispatcher.outcomes d = [false; false; true]
      /\ Dispatcher.successes d = 1%nat
      /\ Dispatcher.waits d = [base; base * factor]
      /\ base < base * factor)
  /\ fst (Dispatcher.dispatch base factor max_attempts endpoint store) = store.
Proof.
  intros Hbase Hfactor Hmax d.
  assert (Hcap : (1 <= max_attempts)%nat) by lia.
  pose proof (deliver_inv base factor max_attempts endpoint Hcap) as (Hw & Hs).
  pose proof (deliver_terminal base factor max_attempts endpoint Hcap) as Hterm.
  fold d in Hw, Hs, Hterm.
  assert (Hlen : (1 <= List.length (Dispatcher.outcomes d) <= max_attempts)%nat
                 /\ List.length (Dispatcher.waits d)
                    = (List.length (Dispatcher.outcomes d) - 1)%nat).
  { destruct Hterm as [Ha | Hx]; rewrite ?Ha, ?Hx in Hs.
    - destruct Hs as (k & Hk & _ & _ & Ho & Hl).
      rewrite Ho, length_app, repeat_length. simpl. lia.
    - destruct Hs as (_ & Ho & Hl). rewrite Ho, repeat_length. lia. }
  destruct Hlen as (Hlen & Hwl).
  assert (Hacked : Dispatcher.state d = Dispatcher.Acked ->
                   Dispatcher.successes d = 1%nat).
  { intros Ha. rewrite Ha in Hs. destruct Hs as (k & _ & _ & _ & Ho & _).
    unfold Dispatcher.successes. rewrite Ho, filter_app, length_app.
    rewrite successes_repeat_false. reflexivity. }
  assert (Hexh : Dispatcher.state d = Dispatcher.Exhausted
                 <-> forall k, (1 <= k <= max_attempts)%nat -> endpoint k = false).
  { split.
    - intros Hx. rewrite Hx in Hs. now destruct Hs as (Hf & _).
    - intros Hf. destruct Hterm as [Ha | Hx]; [|exact Hx].
      rewrite Ha in Hs. destruct Hs as (k & Hk & He & _).
      rewrite (Hf k Hk) in He. discriminate. }
  split; [exact Hterm|]. split; [exact Hlen|].
  split; [now rewrite <- Hwl|].
  split; [rewrite Hw; apply backoffs_increasing; [assumption | assumption | lia]|].
  split; [exact Hacked|].
  split.
  { intros Hx. rewrite Hx in Hs. destruct Hs as (_ & Ho & _).
    unfold Dispatcher.successes. rewrite Ho, successes_repeat_false, repeat_length.
    now split. }
  split; [exact Hexh|].
  split; [|reflexivity].
  intros H1 H2 H3.
  assert (Ha : Dispatcher.state d = Dispatcher.Acked).
  { destruct Hterm as [Ha | Hx]; [exact Ha|].
    pose proof (proj1 Hexh Hx) as Hall.
    rewrite (Hall 3%nat) in H3 by lia. discriminate. }
  split; [exact Ha|].
  rewrite Ha in Hs. destruct Hs as (k & Hk & He & Hf & Ho & Hl).
  assert (k = 3%nat) as ->.
  { destruct (Nat.lt_trichotomy k 3) as [Hlt | [-> | Hgt]]; [|reflexivity|].
    - assert (k = 1 \/ k = 2)%nat as [-> | ->] by lia; congruence.
    - rewrite (Hf 3%nat) in H3 by lia. discriminate. }
  split; [exact Ho|]. split; [now apply Hacked|].
  split.
  - rewrite Hw, Hl. simpl. unfold Dispatcher.backoff. simpl Z.of_nat.
    rewrite Z.pow_0_r, Z.pow_1_r, Z.mul_1_r. reflexivity.
  - nia.
Qed.

Lemma webhook_retry_policy_witness :
  0 < 1000
  /\ 1 < 2
  /\ (3 <= 5)%nat
  /\ Dispatcher.third_time_lucky 1 = false
  /\ Dispatcher.third_time_lucky 2 = false
  /\ Dispatcher.third_time_lucky 3 = true
  /\ Dispatcher.state (Dispatcher.deliver 1000 2 5 Dispatcher.third_time_lucky)
     = Dispatcher.Acked
  /\ Dispatcher.outcomes (Dispatcher.deliver 1000 2 5 Dispatcher.third_time_lucky)
     = [false; false; true]
  /\ Dispatcher.successes (Dispatcher.deliver 1000 2 5 Dispatcher.third_time_lucky)
     = 1%nat
  /\ Dispatcher.waits (Dispatcher.deliver 1000 2 5 Dispatcher.third_time_lucky)
     = [1000; 1000 * 2].
Proof.
  split; [lia|]. split; [lia|]. split; [lia|].
  split; [reflexivity|]. split; [reflexivity|]. split; [reflexivity|].
  destruct (webhook_retry_policy 1000 2 5 Dispatcher.third_time_lucky
              Sample.queue5 ltac:(lia) ltac:(lia) ltac:(lia))
    as (_ & _ & _ & _ & _ & _ & _ & Hscenario & _).
  destruct (Hscenario eq_refl eq_refl eq_refl) as (Hs & Ho & Hn & Hw & _).
  repeat split; assumption.
Defined.

(** The two ends of the policy with base 1000, factor 2 and cap 5. *)
Example deliver_third_time_lucky :
  Dispatcher.deliver 1000 2 5 Dispatcher.third_time_lucky
  = Dispatcher.mkDelivery Dispatcher.Acked [1000; 2000] [false; false; true].
Proof. vm_compute. reflexivity. Qed.

Example deliver_never :
  Dispatcher.deliver 1000 2 5 Dispatcher.never
  = Dispatcher.mkDelivery Dispatcher.Exhausted [1000; 2000; 4000; 8000]
      [false; false; false; false; false].
Proof. vm_compute. reflexivity. Qed.

(** * Further properties of the handlers *)

(** ** The QR image *)

Section QrcodeImage.

Context {img : ImageLibrary}.

Lemma qrcode_image_eval (w : World) :
  Main.qrcode_image w
  = (match reply_result (baileys w (get_request "/qrcode")) with
     | Ok (JDict items) =>
         let qr := lookup_or_null "qr" items in
         if truthy qr
         then match qrcode_png qr with
              | Some png => Ok (StreamingResponse png "image/png")
              | None => Raise (HTTPException 503 (str_exn DataOverflowError))
              end
         else Raise (HTTPException 503
                       (str_exn (HTTPException 404 "QR not available")))
     | Ok _ => Raise (HTTPException 503 (str_exn (AttributeError "get")))
     | Raise e => Raise (HTTPException 503 (str_exn e))
     end, w).
Proof.
  unfold Main.qrcode_image, try_except, bind.
  rewrite baileys_get_eval.
  destruct (reply_result _) as [[| | | | |items]|e]; try reflexivity.
  unfold dict_get, getitem, qrcode_make_png, lookup_or_null, ret, raise.
  destruct (assoc "qr" items) as [v|]; [|reflexivity].
  destruct (truthy v); cbn [negb]; [|reflexivity].
  destruct (qrcode_png v); reflexivity.
Qed.

Lemma qrcode_image_old_same (w : World) :
  MainOld.qrcode_image w = Main.qrcode_image w.
Proof. reflexivity. Qed.

End QrcodeImage.

(** X1: [qrcode_image] answers with the PNG stream or raises an
    [HTTPException] 503, nothing else, in both modules.  The 404 that the
    handler raises for a missing QR code is raised inside its own [try], so
    it is caught by [except Exception] and reaches the caller as 503 with
    the detail "404: QR not available". *)
Theorem qrcode_image_ok_or_503 {img : ImageLibrary} (w : World) :
  MainOld.qrcode_image w = Main.qrcode_image w
  /\ ((exists png : string,
          Main.qrcode_image w = (Ok (StreamingResponse png "image/png"), w))
      \/ (exists detail : string,
             Main.qrcode_image w = (Raise (HTTPException 503 detail), w)))
  /\ (forall (c : Z) (items : list (string * Json)),
         baileys w (get_request "/qrcode") = HttpReply c (Some (JDict items)) ->
         is_success c = true ->
         (truthy (lookup_or_null "qr" items) = false ->
          Main.qrcode_image w
          = (Raise (HTTPException 503 "404: QR not available"), w))
         /\ (forall png : string,
                truthy (lookup_or_null "qr" items) = true ->
                qrcode_png (lookup_or_null "qr" items) = Some png ->
                Main.qrcode_image w
                = (Ok (StreamingResponse png "image/png"), w))).
Proof.
  split; [apply qrcode_image_old_same|].
  rewrite qrcode_image_eval. split.
  - destruct (reply_result _) as [[| | | | |items]|e];
      try solve [right; eexists; reflexivity].
    cbv zeta. destruct (truthy _); [|right; eexists; reflexivity].
    destruct (qrcode_png _); [left | right]; eexists; reflexivity.
  - intros c items Hreply Hc. rewrite Hreply. cbn [reply_result]. rewrite Hc.
    cbv zeta. split.
    + intros Hqr. rewrite Hqr. reflexivity.
    + intros png Hqr Hpng. now rewrite Hqr, Hpng.
Qed.

Example qrcode_image_missing_qr :
  Main.qrcode_image (img := sample_images)
    (mkWorld true []
       (fun _ => HttpReply 200 (Some (JDict [("status", JStr "connected")]))))
  = (Raise (HTTPException 503 "404: QR not available"),
     mkWorld true []
       (fun _ => HttpReply 200 (Some (JDict [("status", JStr "connected")])))).
Proof. vm_compute. reflexivity. Qed.

Example qrcode_image_with_qr :
  fst (MainOld.qrcode_image (img := sample_images) Sample.world5)
  = Ok (StreamingResponse "PNG:2@abc" "image/png").
Proof. vm_compute. reflexivity. Qed.

(** ** Logout *)

Lemma baileys_delete_eval (path : string) (w : World) :
  baileys_delete path w = (reply_result (baileys w (delete_request path)), w).
Proof.
  unfold baileys_delete, delete_request, bind, http_send, reply_result.
  destruct (baileys w _) as [reason | c [v|]]; [reflexivity| |];
    unfold raise_for_status; cbn [resp_status_code];
    destruct (is_success c); reflexivity.
Qed.

(** X2: [logout] of [main.py] does not look at the status code: whenever
    the connector answers with a JSON body, that body is the answer, also
    under an error status; [logout] of [main.old.py] goes through
    [baileys_delete] and raises the status error instead.  With no reply at
    all both raise the transport error. *)
Theorem logout_status_handling (w : World) :
  (forall (c : Z) (body : Json),
      baileys w (delete_request "/logout") = HttpReply c (Some body) ->
      Main.logout w = (Ok body, w)
      /\ MainOld.logout w
         = (if is_success c then Ok body else Raise (HTTPStatusError c), w))
  /\ (forall reason : string,
         baileys w (delete_request "/logout") = NoReply reason ->
         Main.logout w = (Raise (TransportError reason), w)
         /\ MainOld.logout w = (Raise (TransportError reason), w)).
Proof.
  unfold MainOld.logout. rewrite baileys_delete_eval.
  unfold Main.logout, bind, http_send, response_json.
  fold (delete_request "/logout").
  split.
  - intros c body Hreply. rewrite Hreply. cbn [resp_body reply_result].
    split; [reflexivity|]. destruct (is_success c); reflexivity.
  - intros reason Hreply. rewrite Hreply. split; reflexivity.
Qed.

Lemma logout_status_handling_witness :
  baileys world_500 (delete_request "/logout")
  = HttpReply 500 (Some (JDict [("error", JStr "boom")]))
  /\ Main.logout world_500 = (Ok (JDict [("error", JStr "boom")]), world_500)
  /\ MainOld.logout world_500 = (Raise (HTTPStatusError 500), world_500).
Proof.
  split; [reflexivity|].
  exact (proj1 (logout_status_handling world_500) 500
           (JDict [("error", JStr "boom")]) eq_refl).
Defined.

Lemma qrcode_image_ok_or_503_witness :
  baileys world_no_qr (get_request "/status")
  = HttpReply 200 (Some (JDict [("status", JStr "connected")]))
  /\ Main.qrcode_image (img := sample_images)
       (mkWorld true []
          (fun _ => HttpReply 200 (Some (JDict [("status", JStr "connected")]))))
     = (Raise (HTTPException 503 "404: QR not available"),
        mkWorld true []
          (fun _ => HttpReply 200 (Some (JDict [("status", JStr "connected")]))))
  /\ Main.qrcode_image (img := sample_images) Sample.world5
     = (Ok (StreamingResponse "PNG:2@abc" "image/png"), Sample.world5).
Proof.
  split; [reflexivity|]. split.
  - destruct (qrcode_image_ok_or_503 (img := sample_images)
                (mkWorld true []
                   (fun _ => HttpReply 200
                               (Some (JDict [("status", JStr "connected")])))))
      as (_ & _ & H).
    exact (proj1 (H 200 [("status", JStr "connected")] eq_refl eq_refl) eq_refl).
  - destruct (qrcode_image_ok_or_503 (img := sample_images) Sample.world5)
      as (_ & _ & H).
    exact (proj2 (H 200 [("qr", JStr "2@abc"); ("status", JStr "qr")]
                    eq_refl eq_refl) "PNG:2@abc" eq_refl eq_refl).
Defined.

(** ** What [pop] removes and what it returns *)

Section PopLosses.

Context {libs : Libraries}.

(** The comprehension stops at the first entry that does not decode. *)
Lemma comprehension_loads_undecodable (xs : list string) :
  forallb decodable xs = false ->
  exists (bad : string) (before after : list string),
    xs = (before ++ bad :: after)%list
    /\ forallb decodable before = true
    /\ json_loads bad = None
    /\ comprehension loads xs = Raise (JSONDecodeError bad).
Proof.
  induction xs as [|x xs IH]; simpl; [discriminate|].
  unfold decodable at 1, loads at 1.
  destruct (json_loads x) as [v|] eqn:Hx; simpl.
  - intros H. destruct (IH H) as (bad & before & after & Hxs & Hb & Hbad & Hc).
    exists bad, (x :: before), after. rewrite Hc, Hxs. simpl.
    unfold decodable at 1. rewrite Hx. auto.
  - intros _. exists x, [], xs. auto.
Qed.

Lemma length_filter_le {A} (f : A -> bool) (l : list A) :
  (List.length (filter f l) <= List.length l)%nat.
Proof.
  induction l as [|x l IH]; simpl; [lia|].
  destruct (f x); simpl; lia.
Qed.

Lemma pop_world_after (w : World) (n : Z) :
  redis_up w = true ->
  1 <= n <= 100 ->
  snd (Main.pop_route (IntArg n) w)
  = set_queue w (rev (skipn (Z.to_nat n) (arrival_order (queue w)))).
Proof.
  intros Hup Hn. rewrite (pop_route_accepted w n Hn), (pop_eval w n Hup).
  reflexivity.
Qed.

Lemma length_after_pop (w : World) (n : Z) :
  List.length (rev (skipn (Z.to_nat n) (arrival_order (queue w))))
  = (List.length (queue w) - Nat.min (Z.to_nat n) (List.length (queue w)))%nat.
Proof.
  rewrite length_rev, length_skipn. unfold arrival_order.
  rewrite length_rev. lia.
Qed.

End PopLosses.

(** X3: [pop] removes before it decodes.  When one of the non-empty
    entries it takes is not JSON, the call raises the decoding error for
    the first such entry (every non-empty entry before it decodes), and
    every entry taken, the good ones included, is gone from the queue. *)
Theorem pop_loses_batch_on_undecodable_entry {libs : Libraries}
        (w : World) (n : Z) :
  redis_up w = true ->
  1 <= n <= 100 ->
  let taken := firstn (Z.to_nat n) (arrival_order (queue w)) in
  forallb decodable (filter str_truthy taken) = false ->
  exists (bad : string) (w' : World),
    In bad taken
    /\ json_loads bad = None
    /\ Main.pop_route (IntArg n) w = (Raise (JSONDecodeError bad), w')
    /\ arrival_order (queue w) = (taken ++ arrival_order (queue w'))%list
    /\ List.length (queue w')
       = (List.length (queue w) - Nat.min (Z.to_nat n) (List.length (queue w)))%nat
    /\ exists before after : list string,
         filter str_truthy taken = (before ++ bad :: after)%list
         /\ forallb decodable before = true.
Proof.
  intros Hup Hn taken Hbad.
  destruct (comprehension_loads_undecodable _ Hbad)
    as (bad & before & after & Hsplit & Hbefore & Hnone & Hc).
  assert (Hin : In bad (filter str_truthy taken)).
  { rewrite Hsplit. apply in_or_app. right. now left. }
  exists bad, (set_queue w (rev (skipn (Z.to_nat n) (arrival_order (queue w))))).
  split; [apply filter_In in Hin; tauto|].
  split; [exact Hnone|].
  split.
  - rewrite (pop_route_accepted w n Hn), (pop_eval w n Hup).
    fold taken. rewrite Hc. reflexivity.
  - simpl queue. split; [|split; [apply length_after_pop|]].
    + unfold arrival_order at 2. rewrite rev_involutive.
      unfold taken. now rewrite firstn_skipn.
    + exists before, after. now split.
Qed.

Lemma pop_loses_batch_on_undecodable_entry_witness :
  redis_up sample_corrupt = true
  /\ 1 <= 3 <= 100
  /\ forallb (decodable (libs := Sample.libs))
       (filter str_truthy
          (firstn (Z.to_nat 3) (arrival_order (queue sample_corrupt)))) = false
  /\ exists (bad : string) (w' : World),
       In bad (firstn (Z.to_nat 3) (arrival_order (queue sample_corrupt)))
       /\ json_loads (Libraries := Sample.libs) bad = None
       /\ Main.pop_route (libs := Sample.libs) (IntArg 3) sample_corrupt
          = (Raise (JSONDecodeError bad), w')
       /\ arrival_order (queue sample_corrupt)
          = (firstn (Z.to_nat 3) (arrival_order (queue sample_corrupt))
             ++ arrival_order (queue w'))%list
       /\ List.length (queue w')
          = (List.length (queue sample_corrupt)
             - Nat.min (Z.to_nat 3) (List.length (queue sample_corrupt)))%nat
       /\ exists before after : list string,
            filter str_truthy
              (firstn (Z.to_nat 3) (arrival_order (queue sample_corrupt)))
            = (before ++ bad :: after)%list
            /\ forallb (decodable (libs := Sample.libs)) before = true.
Proof.
  split; [reflexivity|]. split; [lia|]. split; [vm_compute; reflexivity|].
  apply (pop_loses_batch_on_undecodable_entry (libs := Sample.libs)
           sample_corrupt 3); [reflexivity | lia | vm_compute; reflexivity].
Defined.

Example pop_corrupt_loses_good_entries :
  Main.pop_route (libs := Sample.libs) (IntArg 3) sample_corrupt
  = (Raise (JSONDecodeError "not json"), set_queue sample_corrupt []).
Proof. vm_compute. reflexivity. Qed.

(** X4: after an accepted [pop(n)] with Redis reachable, [queue_status]
    reports L - min(n, L), whatever the entries are and whether [pop]
    answered or raised on decoding. *)
Theorem queue_status_after_pop {libs : Libraries} (w : World) (n : Z) :
  redis_up w = true ->
  1 <= n <= 100 ->
  fst (Main.queue_status (snd (Main.pop_route (IntArg n) w)))
  = Ok (JDict
          [("queue_length",
            JNum (Z.of_nat (List.length (queue w)
                            - Nat.min (Z.to_nat n) (List.length (queue w)))));
           ("queue_key", JStr QUEUE_KEY)]).
Proof.
  intros Hup Hn. rewrite (pop_world_after w n Hup Hn), queue_status_eval.
  cbn [redis_up set_queue queue fst]. rewrite Hup. unfold len.
  now rewrite length_after_pop.
Qed.

Lemma queue_status_after_pop_witness :
  redis_up Sample.world5 = true
  /\ 1 <= 2 <= 100
  /\ fst (Main.queue_status
            (snd (Main.pop_route (libs := Sample.libs) (IntArg 2) Sample.world5)))
     = Ok (JDict [("queue_length", JNum 3); ("queue_key", JStr QUEUE_KEY)]).
Proof.
  split; [reflexivity|]. split; [lia|].
  exact (queue_status_after_pop (libs := Sample.libs) Sample.world5 2
           eq_refl ltac:(lia)).
Defined.

(** X5: a successful [pop(n)] never carries more than n messages, nor
    more than the queue held, whatever the entries are. *)
Theorem pop_answer_bounded {libs : Libraries}
        (w : World) (n : Z) (msgs : list Json) :
  1 <= n <= 100 ->
  fst (Main.pop_route (IntArg n) w) = Ok (messages_response msgs) ->
  len msgs <= n
  /\ (List.length msgs <= List.length (queue w))%nat
  /\ len msgs <= 100.
Proof.
  intros Hn Hok. rewrite (pop_route_accepted w n Hn) in Hok.
  destruct (redis_up w) eqn:Hup;
    [|rewrite (pop_down w n Hup) in Hok; discriminate].
  rewrite (pop_eval w n Hup) in Hok. simpl fst in Hok.
  destruct (answer_ok _ _ Hok) as (msgs' & Heq & Hm).
  unfold messages_response in Heq. inversion Heq; subst msgs'.
  apply map_Some_length in Hm.
  pose proof (length_filter_le str_truthy
                (firstn (Z.to_nat n) (arrival_order (queue w)))) as Hf.
  rewrite length_firstn in Hf. unfold arrival_order in Hf.
  rewrite length_rev in Hf. unfold len.
  assert (Hlen : (List.length msgs
                  <= Nat.min (Z.to_nat n) (List.length (queue w)))%nat)
    by (rewrite Hm; exact Hf).
  repeat split; lia.
Qed.

Lemma pop_answer_bounded_witness :
  1 <= 10 <= 100
  /\ fst (Main.pop_route (libs := Sample.libs) (IntArg 10) sample_gappy)
     = Ok (messages_response [Sample.e1; Sample.e2])
  /\ len [Sample.e1; Sample.e2] <= 10
  /\ (List.length [Sample.e1; Sample.e2] <= List.length (queue sample_gappy))%nat
  /\ len [Sample.e1; Sample.e2] <= 100.
Proof.
  split; [lia|]. split; [vm_compute; reflexivity|].
  apply (pop_answer_bounded (libs := Sample.libs) sample_gappy 10);
    [lia | vm_compute; reflexivity].
Defined.

(** ** Windows of [peek] *)

(** LRANGE in closed form: the offsets are counted from the right end
    when negative, then clamped to the list. *)
Lemma lrange_list_spec (l : list string) (start stop : Z) :
  Redis.lrange_list l start stop
  = (let L := Z.of_nat (List.length l) in
     let s := Z.max 0 (if start <? 0 then L + start else start) in
     let e := Z.min (L - 1) (if stop <? 0 then L + stop else stop) in
     if s <=? e
     then firstn (Z.to_nat (e - s + 1)) (skipn (Z.to_nat s) l)
     else []).
Proof.
  unfold Redis.lrange_list. cbv zeta.
  set (L := Z.of_nat (List.length l)).
  set (s0 := if start <? 0 then L + start else start).
  set (e0 := if stop <? 0 then L + stop else stop).
  clearbody s0 e0 L.
  rewrite Z.gtb_ltb, !Z.geb_leb.
  destruct (Z.ltb_spec s0 0) as [Hs|Hs].
  - rewrite Z.max_l by lia.
    destruct (Z.ltb_spec e0 0) as [He|He]; cbn [orb].
    + destruct (Z.leb_spec 0 (Z.min (L - 1) e0)); [lia | reflexivity].
    + destruct (Z.leb_spec L 0) as [HL|HL].
      * destruct (Z.leb_spec 0 (Z.min (L - 1) e0)); [lia | reflexivity].
      * destruct (Z.leb_spec L e0) as [HLe|HLe].
        -- rewrite Z.min_l by lia.
           destruct (Z.leb_spec 0 (L - 1)); [reflexivity | lia].
        -- rewrite Z.min_r by lia.
           destruct (Z.leb_spec 0 e0); [reflexivity | lia].
  - rewrite Z.max_r by lia.
    destruct (Z.ltb_spec e0 s0) as [He|He]; cbn [orb].
    + destruct (Z.leb_spec s0 (Z.min (L - 1) e0)); [lia | reflexivity].
    + destruct (Z.leb_spec L s0) as [HL|HL].
      * destruct (Z.leb_spec s0 (Z.min (L - 1) e0)); [lia | reflexivity].
      * destruct (Z.leb_spec L e0) as [HLe|HLe].
        -- rewrite Z.min_l by lia.
           destruct (Z.leb_spec s0 (L - 1)); [reflexivity | lia].
        -- rewrite Z.min_r by lia.
           destruct (Z.leb_spec s0 e0); [reflexivity | lia].
Qed.

Lemma lrange_list_whole (l : list string) : Redis.lrange_list l 0 (-1) = l.
Proof.
  rewrite lrange_list_spec. cbv zeta.
  change (0 <? 0) with false. change (-1 <? 0) with true. cbv iota.
  rewrite Z.max_l by lia. rewrite Z.min_l by lia.
  destruct (Z.leb_spec 0 (Z.of_nat (List.length l) - 1)) as [H|H].
  - replace (Z.of_nat (List.length l) - 1 - 0 + 1)
      with (Z.of_nat (List.length l)) by lia.
    rewrite Nat2Z.id. simpl skipn. apply firstn_all.
  - destruct l; [reflexivity | simpl List.length in H; lia].
Qed.

(** The last [n] entries of the list: what [n] RPOPs would take, in list
    order. *)
Lemma lrange_list_tail (l : list string) (n : Z) :
  1 <= n ->
  Redis.lrange_list l (- n) (-1) = rev (firstn (Z.to_nat n) (rev l)).
Proof.
  intros Hn. rewrite firstn_rev, rev_involutive, lrange_list_spec. cbv zeta.
  destruct (Z.ltb_spec (- n) 0) as [_|]; [|lia].
  change (-1 <? 0) with true. cbv iota.
  rewrite Z.min_l by lia.
  destruct (Z.leb_spec (Z.max 0 (Z.of_nat (List.length l) + - n))
              (Z.of_nat (List.length l) - 1)) as [H|H].
  - replace (Z.to_nat (Z.max 0 (Z.of_nat (List.length l) + - n)))
      with (List.length l - Z.to_nat n)%nat by lia.
    apply firstn_all2. rewrite length_skipn. lia.
  - destruct l; [now rewrite skipn_nil | simpl List.length in H; lia].
Qed.

Lemma lrange_list_length (l : list string) (start stop : Z) :
  0 <= start ->
  0 <= stop ->
  Z.of_nat (List.length (Redis.lrange_list l start stop))
  <= Z.max 0 (stop - start + 1).
Proof.
  intros Hs Hstop. rewrite lrange_list_spec. cbv zeta.
  destruct (Z.ltb_spec start 0) as [|_]; [lia|].
  destruct (Z.ltb_spec stop 0) as [|_]; [lia|].
  rewrite Z.max_r by lia.
  set (e := Z.min _ _).
  assert (He : e <= stop) by (unfold e; lia).
  destruct (Z.leb_spec start e); [|cbn [List.length]; lia].
  rewrite length_firstn. lia.
Qed.

Lemma map_Some_inj {A} (a b : list A) : map Some a = map Some b -> a = b.
Proof.
  revert b. induction a as [|x a IH]; intros [|y b] H; simpl in H;
    try discriminate; [reflexivity|].
  inversion H; subst. f_equal. now apply IH.
Qed.

(** X6: with non-negative offsets an accepted [peek(start, end)] never
    carries more than end - start + 1 messages, hence never more than 100,
    whatever the queue holds. *)
Theorem peek_window_bounded {libs : Libraries}
        (w : World) (start end_ : Z) (msgs : list Json) :
  0 <= start ->
  0 <= end_ <= 99 ->
  fst (Main.peek_route (IntArg start) (IntArg end_) w)
  = Ok (messages_response msgs) ->
  len msgs <= Z.max 0 (end_ - start + 1) /\ len msgs <= 100.
Proof.
  intros Hs He Hok.
  rewrite (peek_route_accepted w start end_ (proj2 He)) in Hok.
  destruct (redis_up w) eqn:Hup;
    [|rewrite (peek_down w start end_ Hup) in Hok; discriminate].
  destruct (Redis.int64 start && Redis.int64 end_) eqn:Hr;
    [|rewrite (peek_out_of_range w start end_ Hup Hr) in Hok; discriminate].
  apply andb_prop in Hr as [Hs64 He64].
  rewrite (peek_eval w start end_ Hup Hs64 He64) in Hok. simpl fst in Hok.
  destruct (answer_ok _ _ Hok) as (msgs' & Heq & Hm).
  unfold messages_response in Heq. inversion Heq; subst msgs'.
  apply map_Some_length in Hm.
  pose proof (length_filter_le str_truthy
                (Redis.lrange_list (queue w) start end_)) as Hf.
  pose proof (lrange_list_length (queue w) start end_ Hs (proj1 He)) as Hl.
  unfold len. rewrite Hm. lia.
Qed.

Lemma peek_window_bounded_witness :
  0 <= 1
  /\ 0 <= 2 <= 99
  /\ fst (Main.peek_route (libs := Sample.libs) (IntArg 1) (IntArg 2) Sample.world5)
     = Ok (messages_response [Sample.e4; Sample.e3])
  /\ len [Sample.e4; Sample.e3] <= Z.max 0 (2 - 1 + 1)
  /\ len [Sample.e4; Sample.e3] <= 100.
Proof.
  split; [lia|]. split; [lia|]. split; [vm_compute; reflexivity|].
  apply (peek_window_bounded (libs := Sample.libs) Sample.world5 1 2);
    [lia | lia | vm_compute; reflexivity].
Defined.

(** X7: the bound on [end] does not bound the answer.  [peek(0, -1)] is an
    accepted request, and on a queue of envelopes it answers with every
    entry of the queue, newest first, however long the queue is. *)
Theorem peek_0_minus_1_reads_whole_queue {libs : Libraries} (w : World) :
  redis_up w = true ->
  forallb is_envelope (queue w) = true ->
  exists msgs : list Json,
    Main.peek_route (IntArg 0) (IntArg (-1)) w = (Ok (messages_response msgs), w)
    /\ map Some msgs = map json_loads (queue w)
    /\ List.length msgs = List.length (queue w).
Proof.
  intros Hup Henv.
  rewrite (peek_route_accepted w 0 (-1)) by lia.
  rewrite (peek_eval w 0 (-1) Hup eq_refl eq_refl), lrange_list_whole.
  rewrite filter_str_truthy_all by (now apply is_envelope_truthy).
  destruct (comprehension_loads_envelopes _ Henv) as (msgs & Hc & Hm).
  exists msgs. rewrite Hc. split; [reflexivity|]. split; [exact Hm|].
  exact (map_Some_length _ _ _ Hm).
Qed.

Lemma peek_0_minus_1_reads_whole_queue_witness :
  redis_up Sample.world5 = true
  /\ forallb (is_envelope (libs := Sample.libs)) (queue Sample.world5) = true
  /\ exists msgs : list Json,
       Main.peek_route (libs := Sample.libs) (IntArg 0) (IntArg (-1)) Sample.world5
       = (Ok (messages_response msgs), Sample.world5)
       /\ map Some msgs
          = map (json_loads (Libraries := Sample.libs)) (queue Sample.world5)
       /\ List.length msgs = List.length (queue Sample.world5).
Proof.
  split; [reflexivity|]. split; [vm_compute; reflexivity|].
  apply (peek_0_minus_1_reads_whole_queue (libs := Sample.libs) Sample.world5);
    [reflexivity | vm_compute; reflexivity].
Defined.

(** X8: [peek(-n, -1)] previews [pop(n)]: on a queue of envelopes it shows
    exactly the messages that an accepted [pop(n)] would return, in the
    opposite order (newest first instead of oldest first). *)
Theorem peek_tail_previews_pop {libs : Libraries} (w : World) (n : Z) :
  redis_up w = true ->
  forallb is_envelope (queue w) = true ->
  1 <= n <= 100 ->
  exists msgs : list Json,
    fst (Main.pop_route (IntArg n) w) = Ok (messages_response msgs)
    /\ Main.peek_route (IntArg (- n)) (IntArg (-1)) w
       = (Ok (messages_response (rev msgs)), w).
Proof.
  intros Hup Henv Hn.
  destruct (pop_run w n Hup Henv) as (msgs & Hpop & Hm).
  exists msgs. rewrite (pop_route_accepted w n Hn), Hpop.
  split; [reflexivity|].
  rewrite (peek_route_accepted w (- n) (-1)) by lia.
  rewrite (peek_eval w (- n) (-1) Hup) by (try apply int64_iff; lia).
  rewrite lrange_list_tail by lia.
  fold (arrival_order (queue w)).
  set (taken := firstn (Z.to_nat n) (arrival_order (queue w))) in *.
  assert (Htaken : forallb is_envelope (rev taken) = true).
  { apply forallb_rev. unfold taken. apply forallb_firstn.
    unfold arrival_order. now apply forallb_rev. }
  rewrite filter_str_truthy_all by (now apply is_envelope_truthy).
  destruct (comprehension_loads_envelopes _ Htaken) as (msgs' & Hc & Hm').
  rewrite Hc.
  assert (msgs' = rev msgs) as ->; [|reflexivity].
  apply map_Some_inj. now rewrite Hm', !map_rev, Hm.
Qed.

Lemma peek_tail_previews_pop_witness :
  redis_up Sample.world5 = true
  /\ forallb (is_envelope (libs := Sample.libs)) (queue Sample.world5) = true
  /\ 1 <= 2 <= 100
  /\ exists msgs : list Json,
       fst (Main.pop_route (libs := Sample.libs) (IntArg 2) Sample.world5)
       = Ok (messages_response msgs)
       /\ Main.peek_route (libs := Sample.libs) (IntArg (- 2)) (IntArg (-1))
            Sample.world5
          = (Ok (messages_response (rev msgs)), Sample.world5).
Proof.
  split; [reflexivity|]. split; [vm_compute; reflexivity|]. split; [lia|].
  apply (peek_tail_previews_pop (libs := Sample.libs) Sample.world5 2);
    [reflexivity | vm_compute; reflexivity | lia].
Defined.

(** ** Redis out of reach *)

(** X9: with Redis unreachable, [queue_status], [peek] and [pop] let the
    connection error of the client leave the handler as it is (a 500, not
    a 503), and the world is as before: [pop] removes nothing.  Only
    [health] turns the same condition into data. *)
Theorem redis_down_is_unhandled {libs : Libraries}
        (w : World) (start end_ n : Z) :
  redis_up w = false ->
  end_ <= 99 ->
  1 <= n <= 100 ->
  Main.queue_status w = (Raise RedisConnectionError, w)
  /\ Main.peek_route (IntArg start) (IntArg end_) w
     = (Raise RedisConnectionError, w)
  /\ Main.pop_route (IntArg n) w = (Raise RedisConnectionError, w)
  /\ http_status (fst (Main.pop_route (IntArg n) w)) = 500
  /\ exists report : list (string * Json),
       fst (Main.health w) = Ok (JDict report)
       /\ assoc "redis" report = Some (JStr "error").
Proof.
  intros Hup He Hn.
  rewrite queue_status_eval, (peek_route_accepted w start end_ He),
    (pop_route_accepted w n Hn), (peek_down w start end_ Hup),
    (pop_down w n Hup), Hup.
  repeat split.
  rewrite health_eval, store_probe_up, Hup. cbn [andb fst].
  eexists. split; reflexivity.
Qed.

Lemma redis_down_is_unhandled_witness :
  redis_up world_redis_down = false
  /\ 9 <= 99
  /\ 1 <= 10 <= 100
  /\ Main.queue_status world_redis_down
     = (Raise RedisConnectionError, world_redis_down)
  /\ Main.peek_route (libs := Sample.libs) (IntArg 0) (IntArg 9) world_redis_down
     = (Raise RedisConnectionError, world_redis_down)
  /\ Main.pop_route (libs := Sample.libs) (IntArg 10) world_redis_down
     = (Raise RedisConnectionError, world_redis_down).
Proof.
  split; [reflexivity|]. split; [lia|]. split; [lia|].
  destruct (redis_down_is_unhandled (libs := Sample.libs) world_redis_down
              0 9 10 eq_refl ltac:(lia) ltac:(lia))
    as (H1 & H2 & H3 & _).
  repeat split; assumption.
Defined.

(** ** Handlers that wrap the connector *)

Lemma trace_conversation_eval (jid : string) (limit : Z) (w : World) :
  MainOld.trace_conversation jid limit w
  = (match reply_result
             (baileys w
                (get_request ("/messages/trace/" ++ jid ++ "?limit="
                              ++ str_int limit))) with
     | Ok v => Ok v
     | Raise e => Raise (HTTPException 503 ("Baileys unavailable: " ++ str_exn e))
     end, w).
Proof.
  unfold MainOld.trace_conversation, try_except. rewrite baileys_get_eval.
  destruct (reply_result _); reflexivity.
Qed.

(** X10: [status] and, for an accepted [limit], [trace_conversation]
    answer with 200 or 503 and nothing else; on 200 the answer is the body
    of the connector's reply, unchanged. *)
Theorem status_and_trace_200_or_503 (w : World) (jid : string) (limit : Z) :
  1 <= limit <= 500 ->
  let trace_request :=
    get_request ("/messages/trace/" ++ jid ++ "?limit=" ++ str_int limit) in
  (http_status (fst (Main.status w)) = 200
   \/ http_status (fst (Main.status w)) = 503)
  /\ (http_status (fst (MainOld.trace_conversation_route jid (IntArg limit) w)) = 200
      \/ http_status (fst (MainOld.trace_conversation_route jid (IntArg limit) w))
         = 503)
  /\ (forall body : Json,
         fst (Main.status w) = Ok body
         <-> reply_result (baileys w (get_request "/status")) = Ok body)
  /\ (forall body : Json,
         fst (MainOld.trace_conversation_route jid (IntArg limit) w) = Ok body
         <-> reply_result (baileys w trace_request) = Ok body).
Proof.
  intros Hl trace_request.
  assert (Hroute : MainOld.trace_conversation_route jid (IntArg limit) w
                   = MainOld.trace_conversation jid limit w).
  { unfold MainOld.trace_conversation_route.
    rewrite validate_within; [reflexivity|].
    unfold within, MainOld.trace_limit; simpl.
    apply andb_true_iff. rewrite !Z.leb_le. lia. }
  rewrite Hroute, status_eval, trace_conversation_eval. fold trace_request.
  destruct (reply_result (baileys w (get_request "/status"))) as [v1|e1];
    destruct (reply_result (baileys w trace_request)) as [v2|e2];
    cbn [fst http_status];
    repeat split; auto; intros H; try discriminate; exact H.
Qed.

Lemma status_and_trace_200_or_503_witness :
  1 <= 50 <= 500
  /\ http_status (fst (Main.status world_500)) = 503
  /\ http_status
       (fst (MainOld.trace_conversation_route "972501234567" (IntArg 50) world_500))
     = 503
  /\ fst (Main.status Sample.world5)
     = Ok (JDict [("status", JStr "connected"); ("length", JNum 3)]).
Proof.
  split; [lia|].
  destruct (status_and_trace_200_or_503 world_500 "972501234567" 50 ltac:(lia))
    as ([H1|H1] & [H2|H2] & _); try (vm_compute in H1; discriminate);
    try (vm_compute in H2; discriminate).
  split; [exact H1|]. split; [exact H2|].
  destruct (status_and_trace_200_or_503 Sample.world5 "972501234567" 50 ltac:(lia))
    as (_ & _ & Hbody & _).
  apply Hbody. reflexivity.
Defined.

(** ** The two versions of [get_qrcode] *)

(** X11: the two versions of [get_qrcode] differ only on an error status
    of the connector: [main.py] passes the connector's code on, [main.old.py]
    answers 404 whatever the code; on every other reply they agree. *)
Theorem get_qrcode_versions {libs : Libraries} (w : World) :
  (forall c : Z,
      reply_error (baileys w (get_request "/qrcode")) = Some (HTTPStatusError c) ->
      Main.get_qrcode w
      = (Raise (HTTPException c "QR not available – check /status"), w)
      /\ MainOld.get_qrcode w
         = (Raise (HTTPException 404 "QR not available – check /status"), w))
  /\ ((forall c : Z,
          reply_error (baileys w (get_request "/qrcode"))
          <> Some (HTTPStatusError c)) ->
      MainOld.get_qrcode w = Main.get_qrcode w).
Proof.
  split.
  - intros c He.
    rewrite (get_qrcode_connector_error w _ He),
      (get_qrcode_old_connector_error w _ He). split; reflexivity.
  - intros Hne.
    destruct (reply_error (baileys w (get_request "/qrcode"))) as [e|] eqn:He.
    + rewrite (get_qrcode_connector_error w _ He),
        (get_qrcode_old_connector_error w _ He).
      destruct e; try reflexivity. exfalso. now apply (Hne status_code).
    + unfold MainOld.get_qrcode, Main.get_qrcode, try_except, bind.
      rewrite baileys_get_eval.
      destruct (baileys w (get_request "/qrcode")) as [reason | c [v|]];
        simpl in He; try discriminate;
        destruct (is_success c) eqn:Hc; try discriminate.
      cbn [reply_result]. rewrite Hc.
      destruct v as [| | | | |items]; try reflexivity.
      unfold dict_get, getitem, qrcode_make_b64, ret, raise.
      destruct (assoc "qr" items) as [v|]; [|reflexivity].
      destruct (truthy v); [|reflexivity].
      destruct (qrcode_png_base64 v); reflexivity.
Qed.

Lemma get_qrcode_versions_witness :
  reply_error (baileys world_500 (get_request "/qrcode"))
  = Some (HTTPStatusError 500)
  /\ Main.get_qrcode (libs := Sample.libs) world_500
     = (Raise (HTTPException 500 "QR not available – check /status"), world_500)
  /\ MainOld.get_qrcode (libs := Sample.libs) world_500
     = (Raise (HTTPException 404 "QR not available – check /status"), world_500).
Proof.
  split; [reflexivity|].
  exact (proj1 (get_qrcode_versions (libs := Sample.libs) world_500) 500 eq_refl).
Defined.

(** ** Validation of bodies and of the contacts route *)

(** X12: [send_buttons] takes one to three buttons.  A body with no button
    or with more than three is answered with a validation error whatever
    the connector would say, and the world is as before; a body within the
    bound is posted to /send/buttons as [model_dump] gives it, in both
    modules. *)
Theorem send_buttons_takes_1_to_3 (b : ButtonMsg) (w : World) :
  let n := Z.of_nat (List.length (button_buttons b)) in
  Main.send_buttons_route b w
  = (if (1 <=? n) && (n <=? 3)
     then reply_result (baileys w (post_request "/send/buttons" (model_dump b)))
     else Raise (RequestValidationError "buttons"), w)
  /\ MainOld.send_buttons_route b w = Main.send_buttons_route b w
  /\ (button_buttons b = [] ->
      Main.send_buttons_route b w = (Raise (RequestValidationError "buttons"), w))
  /\ (3 < n ->
      Main.send_buttons_route b w = (Raise (RequestValidationError "buttons"), w)).
Proof.
  intros n.
  assert (Heval : Main.send_buttons_route b w
                  = (if (1 <=? n) && (n <=? 3)
                     then reply_result
                            (baileys w (post_request "/send/buttons" (model_dump b)))
                     else Raise (RequestValidationError "buttons"), w)).
  { unfold Main.send_buttons_route, buttons_field_ok, len. fold n.
    destruct ((1 <=? n) && (n <=? 3)); [|reflexivity].
    unfold Main.send_buttons. apply baileys_post_eval. }
  split; [exact Heval|]. split; [reflexivity|]. split.
  - intros Hnil. rewrite Heval. unfold n. rewrite Hnil. reflexivity.
  - intros Hn. rewrite Heval.
    destruct (Z.leb_spec n 3); [lia|]. now rewrite andb_false_r.
Qed.

Example send_buttons_four_rejected :
  Main.send_buttons_route four_buttons Sample.world5
  = (Raise (RequestValidationError "buttons"), Sample.world5)
  /\ fst (Main.send_buttons_route two_buttons Sample.world5)
     = Ok (JDict [("success", JBool true)]).
Proof. vm_compute. split; reflexivity. Qed.

(** X13: [get_contacts] takes [limit] in 1..1000, 200 when it is missing,
    and the empty search text when [q] is missing; a limit outside the
    bound or one that is no integer is answered with a validation error
    and the world is as before. *)
Theorem get_contacts_limit_enforced (w : World) (q : string) (z : Z) (raw : string) :
  MainOld.get_contacts_route (Some q) (IntArg z) w
  = (if (1 <=? z) && (z <=? 1000) then MainOld.get_contacts q z w
     else (Raise (RequestValidationError "limit"), w))
  /\ MainOld.get_contacts_route None Absent w
     = MainOld.get_contacts EmptyString 200 w
  /\ MainOld.get_contacts_route (Some q) (BadArg raw) w
     = (Raise (RequestValidationError "limit"), w)
  /\ MainOld.get_contacts q z w
     = (reply_result
          (baileys w (get_request ("/contacts?q=" ++ q ++ "&limit=" ++ str_int z))),
        w).
Proof.
  unfold MainOld.get_contacts_route, validate, within, bind, ret, raise.
  cbn [q_ge q_le q_default MainOld.contacts_limit].
  repeat split.
  - destruct ((1 <=? z) && (z <=? 1000)); reflexivity.
  - unfold MainOld.get_contacts. apply baileys_get_eval.
Qed.

(** ** Forwarders *)

Lemma run_forwarder_eval (f : Forwarder) (w : World) :
  run_forwarder f w = (reply_result (baileys w (forwarder_request f)), w).
Proof.
  destruct f; cbn [run_forwarder forwarder_request];
    unfold Main.button_click, Main.list_click, MainOld.register_webhook,
      MainOld.list_webhooks, MainOld.stream_info, MainOld.stream_read,
      MainOld.get_contacts, MainOld.contacts_count;
    first [apply baileys_post_eval | apply baileys_get_eval].
Qed.

Lemma reply_result_ok (r : Reply) (body : Json) :
  reply_result r = Ok body
  <-> exists c : Z, r = HttpReply c (Some body) /\ is_success c = true.
Proof.
  split.
  - destruct r as [reason | c [v|]]; simpl; [discriminate| |];
      destruct (is_success c) eqn:Hc; intros H; try discriminate.
    inversion H; subst. eauto.
  - intros (c & -> & Hc). simpl. now rewrite Hc.
Qed.

(** X14: the answer of the interact, webhook, stream and contacts
    handlers is decided by the connector's reply to their request alone.
    They answer with the body of the reply exactly when the reply is 2xx
    with a JSON body; any failure of the connector leaves the handler as
    the exception of the helper, unwrapped (a 500, never a 503). *)
Theorem forwarders_pass_reply_through (f : Forwarder) (w : World) :
  (forall body : Json,
      fst (run_forwarder f w) = Ok body
      <-> exists c : Z,
            baileys w (forwarder_request f) = HttpReply c (Some body)
            /\ is_success c = true)
  /\ (forall e : Exn,
         reply_error (baileys w (forwarder_request f)) = Some e ->
         fst (run_forwarder f w) = Raise e
         /\ http_status (fst (run_forwarder f w)) = 500).
Proof.
  rewrite run_forwarder_eval. cbn [fst].
  split.
  - intros body. apply reply_result_ok.
  - intros e He. rewrite (reply_error_result _ _ He).
    split; [reflexivity|]. exact (reply_error_status_500 _ _ He).
Qed.

Lemma forwarders_pass_reply_through_witness :
  reply_error (baileys world_down (forwarder_request (FwdStreamRead 10 "0")))
  = Some (TransportError "All connection attempts failed")
  /\ fst (run_forwarder (FwdStreamRead 10 "0") world_down)
     = Raise (TransportError "All connection attempts failed")
  /\ http_status (fst (run_forwarder (FwdStreamRead 10 "0") world_down)) = 500
  /\ fst (run_forwarder (FwdButtonClick (mkButtonClick "972501234567" "y" None))
            Sample.world5)
     = Ok (JDict [("success", JBool true)]).
Proof.
  split; [reflexivity|].
  destruct (forwarders_pass_reply_through (FwdStreamRead 10 "0") world_down)
    as (_ & Hfail).
  destruct (Hfail _ eq_refl) as (H1 & H2).
  split; [exact H1|]. split; [exact H2|].
  destruct (forwarders_pass_reply_through
              (FwdButtonClick (mkButtonClick "972501234567" "y" None))
              Sample.world5) as (Hok & _).
  apply Hok. exists 200. split; reflexivity.
Defined.
